(** Verification of the tutorial notebooks of tf-agents-tutorials:
    the toy card-game environment [CardGameEnv], the [PyEnvironment] class
    written out in the environments notebook, the replay-buffer abstraction,
    and the data collection and training loop of the DQN notebook. *)

From Stdlib Require Import ZArith QArith Lia String.
From stdpp Require Import base list.

(* ===================================================================== *)
(** * CardGameEnv (the custom Python environment of the notebook)        *)
(* ===================================================================== *)

Module CardGame.

Local Open Scope Z_scope.

(** Fields of the Python object: [self._state], [self._episode_ended]. *)
Record CardGameEnv := mkEnv {
  _state : Z;
  _episode_ended : bool
}.

(** [ts.StepType]. *)
Inductive StepType := FIRST | MID | LAST.

(** [ts.TimeStep]; rewards and discounts are float32 in the library, the
    values involved here (small integers, 0.0, 1.0) are exact, so Q. *)
Record TimeStep := mkTimeStep {
  step_type : StepType;
  reward : Q;
  discount : Q;
  observation : list Z
}.

(** [ts.restart], [ts.termination], [ts.transition]. *)
Definition restart (obs : list Z) : TimeStep :=
  mkTimeStep FIRST 0%Q 1%Q obs.
Definition termination (obs : list Z) (r : Q) : TimeStep :=
  mkTimeStep LAST r 0%Q obs.
Definition transition (obs : list Z) (r d : Q) : TimeStep :=
  mkTimeStep MID r d obs.

(** Python exceptions raised by the environment. *)
Inductive exn := ValueError (msg : string).

(** A state-and-exception monad over the environment object: a raised
    exception keeps the object as it was at the point of the raise. *)
Definition M (A : Type) := CardGameEnv -> CardGameEnv * (exn + A).

Definition ret {A} (a : A) : M A := fun e => (e, inr a).
Definition bind {A B} (c : M A) (k : A -> M B) : M B :=
  fun e => match c e with
           | (e', inl x) => (e', inl x)
           | (e', inr a) => k a e'
           end.
Definition raise {A} (x : exn) : M A := fun e => (e, inl x).
Definition get : M CardGameEnv := fun e => (e, inr e).
Definition put (e' : CardGameEnv) : M unit := fun _ => (e', inr tt).

Local Notation "x <-- c ;; k" := (bind c (fun x => k))
  (at level 100, c at next level, right associativity).
Local Notation "c ;;; k" := (bind c (fun _ => k))
  (at level 100, right associativity).

Definition set_state (s : Z) : M unit :=
  e <-- get ;; put (mkEnv s (_episode_ended e)).
Definition set_episode_ended (b : bool) : M unit :=
  e <-- get ;; put (mkEnv (_state e) b).

(** [np.random.randint(lo, hi)]: a uniform integer in [lo, hi), drawn from
    the random source value [draw]. *)
Definition randint (lo hi : Z) (draw : nat) : Z :=
  lo + Z.of_nat draw mod (hi - lo).

(** [__init__] *)
Definition init : CardGameEnv := mkEnv 0 false.

(** [_reset] *)
Definition _reset : M TimeStep :=
  set_state 0 ;;; set_episode_ended false ;;; e <-- get ;;
  ret (restart [_state e]).

(** [PyEnvironment.reset] delegates to [_reset]. *)
Definition reset : M TimeStep := _reset.

(** [_step(action)]; [draw] is the value of the random source consumed by
    [np.random.randint(1, 11)].  The observation
    [np.array([self._state], dtype=np.int32)] is kept as the sum itself,
    which it is while the sum stays below 2^31; past that numpy wraps or
    raises, and results about observations are stated below that bound. *)
Definition _step (draw : nat) (action : Z) : M TimeStep :=
  e <-- get ;;
  if _episode_ended e then reset else
  (if Z.eqb action 1 then set_episode_ended true
   else if Z.eqb action 0 then
     (let new_card := randint 1 11 draw in
      e1 <-- get ;; set_state (_state e1 + new_card))
   else raise (ValueError "`action` should be 0 or 1.")) ;;;
  e2 <-- get ;;
  if _episode_ended e2 || (21 <=? _state e2) then
    let r := if _state e2 <=? 21 then _state e2 - 21 else -21 in
    ret (termination [_state e2] (inject_Z r))
  else ret (transition [_state e2] 0%Q 1%Q).

(** A driver's sequence of calls on the environment: [_step] with the value
    of the random source and the action, or [_reset]. *)
Inductive call :=
  | CallStep (draw : nat) (action : Z)
  | CallReset.

Definition do_call (c : call) : M TimeStep :=
  match c with
  | CallStep draw action => _step draw action
  | CallReset => _reset
  end.

(** The calls in order; a raised exception stops the sequence. *)
Fixpoint run_calls (cs : list call) : M (list TimeStep) :=
  match cs with
  | [] => ret []
  | c :: cs' => t <-- do_call c ;; ts <-- run_calls cs' ;; ret (t :: ts)
  end.

End CardGame.

(* ===================================================================== *)
(** * Replay buffer                                                       *)
(* ===================================================================== *)

(** The notebook declares the [ReplayBuffer] interface ([data_spec],
    [capacity], [add_batch], [get_next], [as_dataset], [gather_all],
    [clear]) with empty bodies; the implementation used,
    [TFUniformReplayBuffer], is not part of the repository's source.
    Everything in this module is modelled from the spec. *)
Module ReplayBuffer.

(** Element types of tensors. *)
Inductive dtype := float32 | float64 | int32 | int64 | bool8.

#[global] Instance dtype_eq_dec : EqDecision dtype.
Proof. solve_decision. Defined.

(** Modelled from the spec: [tf.TensorSpec(shape, dtype, name)], one field
    of the fixed data specification (flat mapping of named arrays, as
    allowed by the design notes). *)
Record TensorSpec := mkTensorSpec {
  ts_shape : list nat;
  ts_dtype : dtype;
  ts_name : string
}.

(** Modelled from the spec: a tensor value with its shape, element type and
    its elements in row-major order. *)
Record Tensor := mkTensor {
  t_shape : list nat;
  t_dtype : dtype;
  t_values : list Z
}.

(** Modelled from the spec: a trajectory record, one tensor per field of
    the data specification. *)
Definition Record := list Tensor.

(** Modelled from the spec: the error taxonomy. *)
Inductive error :=
  | SpecMismatch
  | BatchSizeMismatch
  | InsufficientData
  | OutOfRange
  | RaggedLengthError.

Inductive result (A : Type) :=
  | Ok (a : A)
  | Err (e : error).
Arguments Ok {A} a.
Arguments Err {A} e.

Fixpoint mapR {A B} (f : A -> result B) (l : list A) : result (list B) :=
  match l with
  | [] => Ok []
  | x :: l' =>
      match f x with
      | Err e => Err e
      | Ok y => match mapR f l' with
                | Err e => Err e
                | Ok ys => Ok (y :: ys)
                end
      end
  end.

Definition shape_size (sh : list nat) : nat := foldr Nat.mul 1%nat sh.

(** Modelled from the spec: a tensor conforms to a tensor spec when shape
    and element type agree (and it holds as many elements as its shape). *)
Definition tensor_conforms (sp : TensorSpec) (t : Tensor) : bool :=
  bool_decide (t_shape t = ts_shape sp) && bool_decide (t_dtype t = ts_dtype sp)
  && (length (t_values t) =? shape_size (t_shape t))%nat.

Fixpoint conforms (ds : list TensorSpec) (r : Record) : bool :=
  match ds, r with
  | [], [] => true
  | sp :: ds', t :: r' => tensor_conforms sp t && conforms ds' r'
  | _, _ => false
  end.

(** Modelled from the spec: one lane, a circular segmented store.  Logical
    position [i] lives in physical slot [i mod max_length]; [head] is the
    next logical write position, [count] the number of live records. *)
Record Lane := mkLane {
  slots : list (option Record);
  head : nat;
  count : nat
}.

Definition lane_new (max_length : nat) : Lane :=
  mkLane (replicate max_length None) 0 0.

(** Modelled from the spec: [write(record)], evicting the oldest record
    once the lane is full. *)
Definition lane_write (max_length : nat) (ln : Lane) (r : Record) : Lane :=
  mkLane (<[ (head ln mod max_length)%nat := Some r ]> (slots ln))
         (S (head ln)) (Nat.min (S (count ln)) max_length).

(** Modelled from the spec: [read(logical_index)]. *)
Definition lane_read (max_length : nat) (ln : Lane) (i : nat) : result Record :=
  if (head ln - count ln <=? i)%nat && (i <? head ln)%nat then
    match slots ln !! (i mod max_length)%nat with
    | Some (Some r) => Ok r
    | _ => Err OutOfRange
    end
  else Err OutOfRange.

(** Modelled from the spec: [read_window(start_index, length)]. *)
Definition lane_read_window (max_length : nat) (ln : Lane) (s m : nat)
    : result (list Record) :=
  mapR (lane_read max_length ln) (seq s m).

(** Modelled from the spec: the buffer owns its lanes, its capacity and its
    fixed data specification. *)
Record Buffer := mkBuffer {
  data_spec : list TensorSpec;
  batch_size : nat;
  max_length : nat;
  capacity : nat;
  lanes : list Lane
}.

(** Modelled from the spec: [new(data_spec, batch_size, max_length)]. *)
Definition new (ds : list TensorSpec) (batch_size max_length : nat) : Buffer :=
  mkBuffer ds batch_size max_length (batch_size * max_length)
           (replicate batch_size (lane_new max_length)).

Definition with_lanes (b : Buffer) (ls : list Lane) : Buffer :=
  mkBuffer (data_spec b) (batch_size b) (max_length b) (capacity b) ls.

(** Modelled from the spec: [add_batch(items)].  The structure of the items
    is checked against the data specification first, then their number
    against [batch_size]; on failure the buffer is returned unchanged. *)
Definition add_batch (items : list Record) (b : Buffer) : Buffer * result unit :=
  if negb (forallb (conforms (data_spec b)) items) then (b, Err SpecMismatch)
  else if negb (length items =? batch_size b)%nat then (b, Err BatchSizeMismatch)
  else (with_lanes b (zip_with (lane_write (max_length b)) (lanes b) items),
        Ok tt).

(** Modelled from the spec: a [(lane, start)] pair is a valid window of
    [num_steps] records when it neither reads records not yet written
    ([start + num_steps > head]) nor evicted ones ([start < head - count]). *)
Definition window_valid (b : Buffer) (num_steps : nat) (w : nat * nat) : bool :=
  match lanes b !! w.1 with
  | Some ln => (head ln - count ln <=? w.2)%nat && (w.2 + num_steps <=? head ln)%nat
  | None => false
  end.

Definition read_pick (b : Buffer) (num_steps : nat) (w : nat * nat)
    : result (list Record) :=
  match lanes b !! w.1 with
  | Some ln => lane_read_window (max_length b) ln w.2 num_steps
  | None => Err OutOfRange
  end.

(** Modelled from the spec: the sampler.  A pick draws a lane uniformly and
    a start uniformly, rejecting invalid [(lane, start)] pairs; [draws] are
    the successive candidates supplied by the random source.  [None] means
    the supplied draws did not yet end the rejection loop. *)
Definition sample_one (b : Buffer) (num_steps : nat) (draws : list (nat * nat))
    : option (result (list Record)) :=
  match find (window_valid b num_steps) draws with
  | Some w => Some (read_pick b num_steps w)
  | None => None
  end.

Fixpoint sample_all (b : Buffer) (num_steps : nat) (draws : list (list (nat * nat)))
    : option (result (list (list Record))) :=
  match draws with
  | [] => Some (Ok [])
  | d :: ds =>
      match sample_one b num_steps d with
      | None => None
      | Some (Err e) => Some (Err e)
      | Some (Ok w) =>
          match sample_all b num_steps ds with
          | None => None
          | Some (Err e) => Some (Err e)
          | Some (Ok ws) => Some (Ok (w :: ws))
          end
      end
  end.

(** Modelled from the spec: [get_next(sample_batch_size, num_steps)];
    [draws !! i] are the candidates of the [i]-th pick. *)
Definition get_next (sample_batch_size num_steps : nat)
    (draws : list (list (nat * nat))) (b : Buffer)
    : option (result (list (list Record))) :=
  if existsb (fun ln => num_steps <=? count ln)%nat (lanes b) then
    sample_all b num_steps
      (map (fun i => nth i draws []) (seq 0 sample_batch_size))
  else Some (Err InsufficientData).

(** Modelled from the spec: the first batches pulled from [as_stream]; each
    is built as by [get_next]. *)
Definition as_stream (sample_batch_size num_steps : nat)
    (draws : list (list (list (nat * nat)))) (b : Buffer)
    : list (option (result (list (list Record)))) :=
  map (fun d => get_next sample_batch_size num_steps d b) draws.

(** The live records of one lane, oldest first. *)
Definition lane_live (max_length : nat) (ln : Lane) : result (list Record) :=
  lane_read_window max_length ln (head ln - count ln) (count ln).

(** Modelled from the spec: [gather_all()], with the policy that lanes of
    unequal live counts are refused. *)
Definition gather_all (b : Buffer) : result (list (list Record)) :=
  match lanes b with
  | [] => Ok []
  | ln0 :: _ =>
      if forallb (fun ln => count ln =? count ln0)%nat (lanes b)
      then mapR (lane_live (max_length b)) (lanes b)
      else Err RaggedLengthError
  end.

(** Modelled from the spec: [clear()] resets head and count of every lane;
    storage, capacity and data specification are kept. *)
Definition clear (b : Buffer) : Buffer :=
  with_lanes b (map (fun ln => mkLane (slots ln) 0 0) (lanes b)).

(** The public operations, and their effect on the buffer: reads leave it
    as it is. *)
Inductive op :=
  | OpAddBatch (items : list Record)
  | OpGetNext (sample_batch_size num_steps : nat) (draws : list (list (nat * nat)))
  | OpAsStream (sample_batch_size num_steps : nat)
      (draws : list (list (list (nat * nat))))
  | OpGatherAll
  | OpClear.

Definition exec (b : Buffer) (o : op) : Buffer :=
  match o with
  | OpAddBatch items => (add_batch items b).1
  | OpClear => clear b
  | OpGetNext _ _ _ | OpAsStream _ _ _ | OpGatherAll => b
  end.

Definition exec_ops (b : Buffer) (ops : list op) : Buffer := foldl exec b ops.

(** [N] successive [add_batch] calls, with the result of each call. *)
Fixpoint run_adds (b : Buffer) (bs : list (list Record)) : Buffer * list (result unit) :=
  match bs with
  | [] => (b, [])
  | items :: bs' =>
      let '(b1, r) := add_batch items b in
      let '(b2, rs) := run_adds b1 bs' in
      (b2, r :: rs)
  end.

(** A batch [add_batch] accepts. *)
Definition valid_batch (ds : list TensorSpec) (batch_size : nat) (items : list Record) : Prop :=
  length items = batch_size /\ Forall (fun r => conforms ds r = true) items.

(** The records written to lane [j] by a sequence of batches. *)
Definition lane_history (j : nat) (bs : list (list Record)) : list Record :=
  map (fun items => nth j items []) bs.

(** The records written to lane [j] by the operations [ops], on a buffer of
    data specification [ds] and [batch_size] [B], since the last [clear]
    (after the records [h]): each accepted [add_batch] appends its
    record [j], a rejected one and the reads append nothing, [clear] starts
    afresh. *)
Fixpoint lane_log_from (ds : list TensorSpec) (B j : nat) (h : list Record)
    (ops : list op) : list Record :=
  match ops with
  | [] => h
  | OpAddBatch items :: ops' =>
      lane_log_from ds B j
        (if forallb (conforms ds) items && (length items =? B)%nat
         then h ++ [nth j items []] else h) ops'
  | OpClear :: ops' => lane_log_from ds B j [] ops'
  | _ :: ops' => lane_log_from ds B j h ops'
  end.

Definition lane_log (ds : list TensorSpec) (B j : nat) (ops : list op) : list Record :=
  lane_log_from ds B j [] ops.

(** The candidate grid of one pick: every owned lane, and every start up to
    the largest head (a window of [num_steps] records ends at most there). *)
Definition max_head (b : Buffer) : nat := foldr Nat.max 0%nat (map head (lanes b)).

Definition grid (b : Buffer) : list (nat * nat) :=
  list_prod (seq 0 (length (lanes b))) (seq 0 (S (max_head b))).

Definition qnat (n : nat) : Q := inject_Z (Z.of_nat n).

(** Probability that one pick of the rejection sampler selects [w]: the
    share of [w] among the accepted candidates of the uniform grid. *)
Definition pick_prob (b : Buffer) (num_steps : nat) (w : nat * nat) : Q :=
  let accepted := List.filter (window_valid b num_steps) (grid b) in
  (qnat (length (List.filter (fun c => bool_decide (c = w)) accepted))
   / qnat (length accepted))%Q.

(** For comparison: a lane chosen uniformly, then a valid start chosen
    uniformly within that lane. *)
Definition lane_then_start_prob (b : Buffer) (num_steps : nat) (w : nat * nat) : Q :=
  if window_valid b num_steps w then
    (1 / qnat (length (lanes b)) *
     (1 / qnat (length (List.filter (fun s => window_valid b num_steps (w.1, s))
                               (seq 0 (S (max_head b)))))))%Q
  else 0%Q.

End ReplayBuffer.

(* ===================================================================== *)
(** * The [PyEnvironment] class written out in the environments notebook  *)
(* ===================================================================== *)

Module NotebookPyEnv.

(** Python exceptions of the class. *)
Inductive pyexn := AttributeError.

Section Defs.
(** The subclass's state and its [_reset] and [_step] methods. *)
Variables (S A TS : Type).
Variable _reset : S -> S * TS.
Variable _step : A -> S -> S * TS.

(** The attribute [self._current_time_step]: the class has no [__init__],
    so it is missing until something assigns it; it may hold [None]. *)
Inductive attr :=
  | Missing
  | NoneV
  | Val (ts : TS).

Record PyEnv := mkPyEnv {
  inner : S;
  _current_time_step : attr
}.

(** [reset] *)
Definition reset (o : PyEnv) : PyEnv * TS :=
  let '(s', ts) := _reset (inner o) in (mkPyEnv s' (Val ts), ts).

(** [step(action)]: reading a missing attribute raises [AttributeError]. *)
Definition step (action : A) (o : PyEnv) : PyEnv * (pyexn + TS) :=
  match _current_time_step o with
  | Missing => (o, inl AttributeError)
  | NoneV => let '(o', ts) := reset o in (o', inr ts)
  | Val _ =>
      let '(s', ts) := _step action (inner o) in (mkPyEnv s' (Val ts), inr ts)
  end.

(** [current_time_step()] *)
Definition current_time_step (o : PyEnv) : pyexn + option TS :=
  match _current_time_step o with
  | Missing => inl AttributeError
  | NoneV => inr None
  | Val ts => inr (Some ts)
  end.

(** A sequence of [step] calls; an exception stops it. *)
Fixpoint run_steps (actions : list A) (o : PyEnv) : PyEnv * (pyexn + list TS) :=
  match actions with
  | [] => (o, inr [])
  | a :: actions' =>
      match step a o with
      | (o1, inl x) => (o1, inl x)
      | (o1, inr ts) =>
          match run_steps actions' o1 with
          | (o2, inl x) => (o2, inl x)
          | (o2, inr tss) => (o2, inr (ts :: tss))
          end
      end
  end.
End Defs.

Arguments Missing {TS}.
Arguments NoneV {TS}.
Arguments Val {TS} ts.
Arguments mkPyEnv {S TS}.
Arguments inner {S TS}.
Arguments _current_time_step {S TS}.
Arguments reset {S TS}.
Arguments step {S A TS}.
Arguments current_time_step {S TS}.
Arguments run_steps {S A TS}.

End NotebookPyEnv.

(* ===================================================================== *)
(** * [collect_step] and [collect_data] of the DQN notebook               *)
(* ===================================================================== *)

Module Collect.
Import ReplayBuffer.

Section Defs.
(** The environment, its time steps, the policy's steps (carrying an
    [action] field) and the policy's random state. *)
Variables (EnvState TS PolicyStep Action PolicyRng : Type).
(** [environment.current_time_step()] *)
Variable current_time_step : EnvState -> TS.
(** [environment.step(action)] *)
Variable env_step : Action -> EnvState -> EnvState * TS.
(** [policy.action(time_step)] and the field [action_step.action] *)
Variable policy_action : PolicyRng -> TS -> PolicyStep * PolicyRng.
Variable step_action : PolicyStep -> Action.
(** [trajectory.from_transition(time_step, action_step, next_time_step)]:
    one record per lane of the batch. *)
Variable from_transition : TS -> PolicyStep -> TS -> list Record.

Record World := mkWorld {
  env : EnvState;
  prng : PolicyRng;
  buffer : Buffer
}.

(** [collect_step(environment, policy, buffer)]; an error of [add_batch]
    is raised out of it. *)
Definition collect_step (w : World) : World * result unit :=
  let time_step := current_time_step (env w) in
  let '(action_step, rng') := policy_action (prng w) time_step in
  let '(env', next_time_step) := env_step (step_action action_step) (env w) in
  let traj := from_transition time_step action_step next_time_step in
  let '(buffer', r) := add_batch traj (buffer w) in
  (mkWorld env' rng' buffer', r).

(** [collect_data(env, policy, buffer, steps)] *)
Fixpoint collect_data (steps : nat) (w : World) : World * result unit :=
  match steps with
  | O => (w, Ok tt)
  | Datatypes.S n =>
      match collect_step w with
      | (w1, Err e) => (w1, Err e)
      | (w1, Ok _) => collect_data n w1
      end
  end.

(** The transitions [(time_step, action_step, next_time_step)] of a run
    follow each other: each starts at the time step the previous one ended
    on, the first at [t0], the last ends at [tn]. *)
Fixpoint chained (t0 : TS) (trs : list (TS * PolicyStep * TS)) (tn : TS) : Prop :=
  match trs with
  | [] => t0 = tn
  | (t, p, t') :: rest => t = t0 /\ chained t' rest tn
  end.
End Defs.

Arguments mkWorld {EnvState PolicyRng}.
Arguments env {EnvState PolicyRng}.
Arguments prng {EnvState PolicyRng}.
Arguments buffer {EnvState PolicyRng}.
Arguments collect_step {EnvState TS PolicyStep Action PolicyRng}.
Arguments collect_data {EnvState TS PolicyStep Action PolicyRng}.
Arguments chained {TS PolicyStep}.

End Collect.

(* ===================================================================== *)
(** * The training loop of the DQN notebook and its plot                 *)
(* ===================================================================== *)

Module Training.

(** [np.int64 % int]: numpy gives 0 for a zero divisor (with a warning). *)
Definition np_mod (a b : nat) : nat := if Nat.eqb b 0 then 0 else a mod b.

(** [range(start, stop, step)] for non-negative bounds; a zero step raises
    [ValueError], modelled by [None]. *)
Definition py_range (start stop step : nat) : option (list nat) :=
  if Nat.eqb step 0 then None
  else Some (map (fun i => start + i * step)
                 (seq 0 ((stop - start + step - 1) / step))).

Section Defs.
(** [evaluate s] is the value [compute_avg_return] gives when the train
    step counter holds [s]; each counter value is evaluated at most once. *)
Variable V : Type.
Variable evaluate : nat -> V.
Variable eval_interval : nat.

(** The [for _ in range(num_iterations)] loop: [agent.train] increments the
    train step counter by one, and [returns] gets the evaluation whenever
    [step % eval_interval == 0]. *)
Fixpoint train_loop (iters : nat) (step : nat) (returns : list V) : list V :=
  match iters with
  | O => returns
  | S k =>
      let step' := S step in
      train_loop k step'
        (if Nat.eqb (np_mod step' eval_interval) 0
         then returns ++ [evaluate step'] else returns)
  end.

(** [agent.train_step_counter.assign(0)], [returns = [avg_return]], then
    the loop. *)
Definition training_returns (num_iterations : nat) : list V :=
  train_loop num_iterations 0 [evaluate 0].

(** [iterations = range(0, num_iterations + 1, eval_interval)] *)
Definition iterations (num_iterations : nat) : option (list nat) :=
  py_range 0 (num_iterations + 1) eval_interval.
End Defs.

Arguments train_loop {V}.
Arguments training_returns {V}.

End Training.

(* ===================================================================== *)
(** * Concrete data used by the examples below                            *)
(* ===================================================================== *)

Module Examples.
Import ReplayBuffer.
Local Open Scope string_scope.

(** The data specification of an action of shape [3]. *)
Definition action_spec : list TensorSpec := [mkTensorSpec [3%nat] float32 "action"].

(** A record conforming to [action_spec]. *)
Definition action_rec (v : Z) : Record := [mkTensor [3%nat] float32 [v; v; v]].

(** A record whose action has shape [2] instead of [3]. *)
Definition bad_action_rec : Record := [mkTensor [2%nat] float32 [1; 1]%Z].

(** A buffer of two lanes of length 2, holding one and two records. *)
Definition uneven_buffer : Buffer :=
  mkBuffer action_spec 2 2 4
    [mkLane [Some (action_rec 1); None] 1 1;
     mkLane [Some (action_rec 1); Some (action_rec 2)] 2 2].

(** A counting environment for [collect_data]: its state is the number of
    steps taken, which is also its time step. *)
Definition counter_env_step (a : unit) (e : nat) : nat * nat := (S e, S e).

(** A policy with no state that always takes the unit action. *)
Definition unit_policy (r : unit) (t : nat) : unit * unit := (tt, r).

(** A trajectory of one lane holding the next time step. *)
Definition traj_of (t : nat) (p : unit) (t' : nat) : list Record :=
  [action_rec (Z.of_nat t')].

(** A world of [collect_data]: the counting environment at 0 and an empty
    buffer of one lane of length 2. *)
Definition start_world : Collect.World nat unit :=
  Collect.mkWorld 0%nat tt (new action_spec 1 2).

End Examples.

(* ===================================================================== *)
(** * Properties of CardGameEnv                                           *)
(* ===================================================================== *)

Module CardGameProofs.
Import CardGame.
Local Open Scope Z_scope.

Lemma randint_card_range (draw : nat) : 1 <= randint 1 11 draw <= 10.
Proof.
  unfold randint. pose proof (Z.mod_pos_bound (Z.of_nat draw) (11 - 1)). lia.
Qed.

Lemma step_unfold (s : Z) (draw : nat) (action : Z) :
  _step draw action (mkEnv s false) =
  if Z.eqb action 1 then
    (if 21 <=? s
     then (mkEnv s true, inr (termination [s] (inject_Z (if s <=? 21 then s - 21 else -21))))
     else (mkEnv s true, inr (termination [s] (inject_Z (if s <=? 21 then s - 21 else -21)))))
  else if Z.eqb action 0 then
    (let s' := s + randint 1 11 draw in
     if 21 <=? s'
     then (mkEnv s' false, inr (termination [s'] (inject_Z (if s' <=? 21 then s' - 21 else -21))))
     else (mkEnv s' false, inr (transition [s'] 0%Q 1%Q)))
  else (mkEnv s false, inl (ValueError "`action` should be 0 or 1.")).
Proof.
  unfold _step, bind, get, put, set_episode_ended, set_state, ret, raise; simpl.
  destruct (Z.eqb action 1); [destruct (21 <=? s); reflexivity|].
  destruct (Z.eqb action 0); [|reflexivity].
  simpl. destruct (21 <=? s + randint 1 11 draw); reflexivity.
Qed.

(** Claim C9: on a running episode, an action other than 0 or 1 raises
    [ValueError] and leaves the state sum and the episode-ended flag as they
    were; action 0 adds the drawn card (between 1 and 10) to the state sum;
    action 1 sets the episode-ended flag. *)
Theorem step_action_effects (e : CardGameEnv) (draw : nat) (action : Z)
    (Hrun : _episode_ended e = false) :
  (action <> 0 -> action <> 1 ->
     exists msg, _step draw action e = (e, inl (ValueError msg))) /\
  (action = 0 ->
     _state (fst (_step draw action e)) = _state e + randint 1 11 draw /\
     1 <= randint 1 11 draw <= 10) /\
  (action = 1 -> _episode_ended (fst (_step draw action e)) = true).
Proof.
  destruct e as [s ended]; simpl in Hrun; subst ended.
  rewrite step_unfold. split; [|split].
  - intros H0 H1. apply Z.eqb_neq in H0, H1. rewrite H0, H1. eauto.
  - intros ->. simpl. split; [|apply randint_card_range].
    destruct (21 <=? s + randint 1 11 draw); reflexivity.
  - intros ->. simpl. destruct (21 <=? s); reflexivity.
Qed.

Lemma step_action_effects_witness :
  _episode_ended init = false /\
  _state (fst (_step 4 0 init)) = _state init + randint 1 11 4 /\
  1 <= randint 1 11 4 <= 10.
Proof.
  split; [reflexivity|].
  apply (proj1 (proj2 (step_action_effects init 4 0 eq_refl)) eq_refl).
Defined.

(** Claim C10: on a running episode, a step that returns gives a
    termination exactly when the action is 1 or the resulting sum is at
    least 21, with reward [state - 21] if [state <= 21] and [-21] otherwise
    (so never positive); every other step is a transition with reward 0.0
    and discount 1.0. *)
Theorem step_termination (e : CardGameEnv) (draw : nat) (action : Z)
    (e' : CardGameEnv) (t : TimeStep)
    (Hrun : _episode_ended e = false)
    (Hstep : _step draw action e = (e', inr t)) :
  (step_type t = LAST <-> action = 1 \/ 21 <= _state e') /\
  (step_type t = LAST ->
     reward t = inject_Z (if _state e' <=? 21 then _state e' - 21 else -21) /\
     (reward t <= 0)%Q) /\
  (step_type t <> LAST -> step_type t = MID /\ reward t = 0%Q /\ discount t = 1%Q).
Proof.
  destruct e as [s ended]; simpl in Hrun; subst ended.
  rewrite step_unfold in Hstep.
  assert (Hr : forall x, (inject_Z (if x <=? 21 then x - 21 else -21) <= 0)%Q).
  { intros x. rewrite <- (Qle_bool_iff _ _). unfold Qle_bool; simpl.
    destruct (Z.leb_spec x 21); simpl; apply Z.leb_le; lia. }
  destruct (Z.eqb_spec action 1) as [->|H1].
  - destruct (21 <=? s); injection Hstep as <- <-; simpl;
      (split; [tauto|split; [split; [reflexivity|apply Hr]|congruence]]).
  - destruct (Z.eqb_spec action 0) as [->|H0]; [|discriminate].
    simpl in Hstep. destruct (Z.leb_spec 21 (s + randint 1 11 draw)) as [Hge|Hlt];
      injection Hstep as <- <-; simpl.
    + split; [tauto|split; [split; [reflexivity|apply Hr]|congruence]].
    + split; [split; [discriminate|lia]|split; [discriminate|auto]].
Qed.

Lemma step_termination_witness :
  _episode_ended init = false /\
  _step 0 1 init = (mkEnv 0 true, inr (termination [0] (inject_Z (-21)))) /\
  (step_type (termination [0] (inject_Z (-21))) = LAST <-> 1 = 1 \/ 21 <= _state (mkEnv 0 true)).
Proof.
  split; [reflexivity|]. split; [reflexivity|].
  exact (proj1 (step_termination init 0 1 (mkEnv 0 true) (termination [0] (inject_Z (-21)))
                  eq_refl eq_refl)).
Defined.

Lemma step_ended_unfold (s : Z) (draw : nat) (action : Z) :
  _step draw action (mkEnv s true) = (init, inr (restart [0])).
Proof. reflexivity. Qed.

Lemma reset_unfold (e : CardGameEnv) : _reset e = (init, inr (restart [0])).
Proof. destruct e; reflexivity. Qed.

(** One call from a state with a non-negative sum: the sum stays
    non-negative and grows by at most 10, and a returned time step observes
    the sum after the call. *)
Lemma do_call_bounds (c : call) (e e1 : CardGameEnv) (r : exn + TimeStep) :
  0 <= _state e -> do_call c e = (e1, r) ->
  0 <= _state e1 <= _state e + 10 /\
  (forall t, r = inr t -> observation t = [_state e1]).
Proof.
  intros Hs Hc. destruct c as [draw action|]; simpl in Hc.
  - destruct e as [s [|]].
    + rewrite step_ended_unfold in Hc. injection Hc as <- <-. simpl in *.
      split; [lia|]. intros t Ht; injection Ht as <-; reflexivity.
    + rewrite step_unfold in Hc. simpl in Hs.
      pose proof (randint_card_range draw).
      destruct (Z.eqb action 1); [destruct (21 <=? s)|destruct (Z.eqb action 0)];
        try (simpl in Hc; destruct (21 <=? s + randint 1 11 draw));
        injection Hc as <- <-; simpl; (split; [lia|]);
        intros t Ht; try discriminate; injection Ht as <-; reflexivity.
  - rewrite reset_unfold in Hc. injection Hc as <- <-. simpl.
    split; [lia|]. intros t Ht; injection Ht as <-; reflexivity.
Qed.

Lemma run_calls_cons (c : call) (cs : list call) (e : CardGameEnv) :
  run_calls (c :: cs) e =
  match do_call c e with
  | (e1, inl x) => (e1, inl x)
  | (e1, inr t) =>
      match run_calls cs e1 with
      | (e2, inl x) => (e2, inl x)
      | (e2, inr ts) => (e2, inr (t :: ts))
      end
  end.
Proof.
  simpl. unfold bind, ret at 1.
  destruct (do_call c e) as [e1 [x|t]]; [reflexivity|].
  destruct (run_calls cs e1) as [e2 [x|ts]]; reflexivity.
Qed.

Lemma run_calls_nil_state (cs : list call) (e e' : CardGameEnv) :
  run_calls cs e = (e', inr []) -> e' = e.
Proof.
  destruct cs as [|c cs].
  - simpl. unfold ret. intros H; injection H as ->; reflexivity.
  - rewrite run_calls_cons. destruct (do_call c e) as [e1 [x|t]]; [discriminate|].
    destruct (run_calls cs e1) as [e2 [x|ts]]; discriminate.
Qed.

Lemma run_calls_bounds_gen (cs : list call) (e e' : CardGameEnv)
    (r : exn + list TimeStep) :
  0 <= _state e -> run_calls cs e = (e', r) ->
  0 <= _state e' <= _state e + 10 * Z.of_nat (length cs) /\
  (forall ts, r = inr ts ->
     Forall (fun t => exists s, observation t = [s] /\
                0 <= s <= _state e + 10 * Z.of_nat (length cs)) ts /\
     (forall t, last ts = Some t -> observation t = [_state e'])).
Proof.
  revert e e' r. induction cs as [|c cs IH]; intros e e' r Hs Hrun.
  - simpl in Hrun. unfold ret in Hrun. injection Hrun as <- <-. simpl.
    split; [lia|]. intros ts Hts; injection Hts as <-. split; [constructor|].
    intros t Ht; discriminate.
  - rewrite run_calls_cons in Hrun.
    destruct (do_call c e) as [e1 r1] eqn:Ec.
    destruct (do_call_bounds c e e1 r1 Hs Ec) as [Hb1 Hobs1].
    cbn [length]. rewrite Nat2Z.inj_succ.
    destruct r1 as [x|t1].
    + injection Hrun as <- <-. split; [lia|]. intros ts Hts; discriminate.
    + destruct (run_calls cs e1) as [e2 r2] eqn:Er.
      destruct (IH e1 e2 r2 (proj1 Hb1) Er) as [Hb2 Hts2].
      destruct r2 as [x|ts2]; injection Hrun as <- <-.
      * split; [lia|]. intros ts Hts; discriminate.
      * split; [lia|]. intros ts Hts; injection Hts as <-.
        destruct (Hts2 ts2 eq_refl) as [Hall Hlast]. split.
        -- constructor.
           ++ exists (_state e1). split; [apply Hobs1; reflexivity|lia].
           ++ eapply Forall_impl; [exact Hall|].
              intros t [s0 [Ho Hb]]. exists s0. split; [exact Ho|lia].
        -- intros t Ht. destruct ts2 as [|t2 ts2].
           ++ simpl in Ht. injection Ht as <-.
              rewrite (run_calls_nil_state cs e1 e2 Er). apply Hobs1; reflexivity.
           ++ apply Hlast. exact Ht.
Qed.


(** Card steps (action 0) from a running state never raise. *)
Lemma card_steps_no_raise (ds : list nat) (s : Z) (e' : CardGameEnv) (x : exn) :
  run_calls (map (fun d => CallStep d 0) ds) (mkEnv s false) <> (e', inl x).
Proof.
  revert s. induction ds as [|d ds IH]; intros s Hr; [discriminate|].
  cbn [map] in Hr. rewrite run_calls_cons in Hr. simpl do_call in Hr.
  rewrite step_unfold in Hr. simpl in Hr.
  destruct (21 <=? s + randint 1 11 d);
    (destruct (run_calls _ _) as [e3 [y|ts3]] eqn:E3; [|discriminate]);
    injection Hr as -> ->; eapply IH; exact E3.
Qed.

(** The first [n] card steps from a running state whose sum is
    non-negative, with [21 <= s + n] and [n > 0], all return, and one of them
    is a termination. *)
Lemma card_steps_reach_last (ds : list nat) (s : Z) :
  0 <= s -> 21 <= s + Z.of_nat (length ds) -> ds <> [] ->
  exists e' ts,
    run_calls (map (fun d => CallStep d 0) ds) (mkEnv s false) = (e', inr ts) /\
    Exists (fun t => step_type t = LAST) ts.
Proof.
  revert s. induction ds as [|d ds IH]; intros s Hs Hlen Hne; [congruence|].
  cbn [map]. rewrite run_calls_cons. simpl do_call. rewrite step_unfold. simpl.
  pose proof (randint_card_range d).
  set (s' := s + randint 1 11 d) in *.
  destruct (Z.leb_spec 21 s') as [Hge|Hlt].
  - destruct (run_calls (map (fun d0 => CallStep d0 0) ds) (mkEnv s' false))
      as [e2 [x|ts2]] eqn:Er.
    + exfalso. exact (card_steps_no_raise ds s' e2 x Er).
    + eexists _, _. split; [reflexivity|]. apply List.Exists_cons_hd. reflexivity.
  - cbn [length] in Hlen.
    assert (Hne' : ds <> []) by (destruct ds; [simpl in Hlen; lia|discriminate]).
    destruct (IH s' ltac:(lia) ltac:(lia) Hne') as [e' [ts [Er Hex]]].
    rewrite Er. eexists _, _. split; [reflexivity|]. apply List.Exists_cons_tl. exact Hex.
Qed.

(** Sum of the rewards of a list of time steps. *)
Lemma sum_zero_prefix (ts : list TimeStep) (x : Q) :
  Forall (fun u => reward u = 0%Q) ts ->
  Qeq (fold_right Qplus x (map reward ts)) x.
Proof.
  induction 1 as [|u ts Hu _ IH]; simpl; [reflexivity|].
  rewrite Hu, IH. apply Qplus_0_l.
Qed.

Lemma episode_gen (cs : list (nat * Z)) (s : Z) (e' : CardGameEnv)
    (ts : list TimeStep) (t : TimeStep) :
  0 <= s ->
  run_calls (map (fun '(d, a) => CallStep d a) cs) (mkEnv s false) =
    (e', inr (ts ++ [t])) ->
  Forall (fun u => step_type u <> LAST) ts -> step_type t = LAST ->
  Forall (fun u => reward u = 0%Q) ts /\ (-21 <= reward t <= 0)%Q.
Proof.
  revert s ts. induction cs as [|[d a] cs IH]; intros s ts Hs Hrun Hmid Hlast.
  - simpl in Hrun. unfold ret in Hrun. injection Hrun as _ Hn.
    destruct ts; discriminate.
  - cbn [map] in Hrun. rewrite run_calls_cons in Hrun.
    destruct (do_call (CallStep d a) (mkEnv s false)) as [e1 [x|u]] eqn:Ec;
      [discriminate|].
    destruct (run_calls (map (fun '(d, a) => CallStep d a) cs) e1)
      as [e2 [x|us]] eqn:Er; [discriminate|].
    injection Hrun as -> Hts. simpl do_call in Ec.
    pose proof (do_call_bounds (CallStep d a) (mkEnv s false) e1 (inr u) Hs Ec)
      as [[Hs1 _] _].
    assert (Hu := step_termination (mkEnv s false) d a e1 u eq_refl Ec).
    destruct ts as [|u' ts].
    + injection Hts as <- _. split; [constructor|].
      destruct Hu as [_ [Hr _]]. destruct (Hr Hlast) as [Hrw Hle].
      split; [|exact Hle]. rewrite Hrw.
      rewrite <- (Qle_bool_iff _ _). unfold Qle_bool; simpl.
      destruct (Z.leb_spec (_state e1) 21); simpl; apply Z.leb_le; lia.
    + injection Hts as <- Hus. inversion Hmid as [|? ? Hnl Hmid']; subst.
      destruct Hu as [Hiff [_ Hmidr]].
      destruct (Hmidr Hnl) as [_ [Hr0 _]].
      assert (Hend : e1 = mkEnv (_state e1) false).
      { destruct e1 as [s1 [|]]; [|reflexivity].
        rewrite step_unfold in Ec.
        destruct (Z.eqb_spec a 1); [exfalso; apply Hnl, Hiff; auto|].
        destruct (Z.eqb a 0); [simpl in Ec; destruct (21 <=? _)|]; 
          injection Ec; discriminate. }
      rewrite Hend in Er.
      destruct (IH (_state e1) ts Hs1 Er Hmid' Hlast) as [Hz Hb].
      split; [constructor; assumption|exact Hb].
Qed.



(** For any sequence of [_step] and [_reset] calls on a fresh object, the
    sum stays between 0 and 10 times the number of calls; every returned
    time step observes a single such value, and the last one observes the
    final sum (for fewer than 2^31 / 10 calls, so that every sum fits an
    int32 and the observation is the sum itself). *)
Theorem run_calls_sum_bounds (cs : list call)
    (Hsmall : 10 * Z.of_nat (length cs) <= 2147483647) :
  match run_calls cs init with
  | (e', r) =>
      0 <= _state e' <= 10 * Z.of_nat (length cs) /\
      forall ts, r = inr ts ->
        Forall (fun t => exists s, observation t = [s] /\
                  0 <= s <= 10 * Z.of_nat (length cs)) ts /\
        (forall t, last ts = Some t -> observation t = [_state e'])
  end.
Proof.
  destruct (run_calls cs init) as [e' r] eqn:E.
  exact (run_calls_bounds_gen cs init e' r ltac:(simpl; lia) E).
Qed.

Lemma run_calls_sum_bounds_witness :
  10 * Z.of_nat (length [CallStep 3 0; CallStep 7 0; CallReset; CallStep 2 1]) <= 2147483647 /\
  match run_calls [CallStep 3 0; CallStep 7 0; CallReset; CallStep 2 1] init with
  | (e', r) =>
      0 <= _state e' <= 10 * Z.of_nat (length [CallStep 3 0; CallStep 7 0; CallReset; CallStep 2 1]) /\
      forall ts, r = inr ts ->
        Forall (fun t => exists s, observation t = [s] /\
                  0 <= s <= 10 * Z.of_nat (length [CallStep 3 0; CallStep 7 0; CallReset; CallStep 2 1])) ts /\
        (forall t, last ts = Some t -> observation t = [_state e'])
  end.
Proof.
  assert (H : 10 * Z.of_nat (length [CallStep 3 0; CallStep 7 0; CallReset; CallStep 2 1]) <= 2147483647) by (simpl; lia).
  split; [exact H|]. exact (run_calls_sum_bounds _ H).
Defined.

(** Playing only card steps (action 0) after [__init__], 21 calls of
    [_step] (or more) all return, and one of the first 21 time steps is a
    termination: every card adds at least 1 to the sum. *)
Theorem card_steps_end_within_21 (ds : list nat) (Hlen : length ds = 21%nat) :
  exists e' ts,
    run_calls (map (fun d => CallStep d 0) ds) init = (e', inr ts) /\
    Exists (fun t => step_type t = LAST) ts.
Proof.
  apply card_steps_reach_last; [lia|rewrite Hlen; lia|].
  destruct ds; [discriminate|congruence].
Qed.

Lemma card_steps_end_within_21_witness :
  length (repeat 0%nat 21) = 21%nat /\
  exists e' ts,
    run_calls (map (fun d => CallStep d 0) (repeat 0%nat 21)) init = (e', inr ts) /\
    Exists (fun t => step_type t = LAST) ts.
Proof.
  split; [reflexivity|]. apply card_steps_end_within_21. reflexivity.
Defined.

(** An episode played by [_step] calls after [__init__] (every time step
    but the last a non-termination, the last a termination) has rewards
    summing to the final reward, which lies between -21 and 0: every
    earlier step pays 0. *)
Theorem episode_return (cs : list (nat * Z)) (e' : CardGameEnv)
    (ts : list TimeStep) (t : TimeStep)
    (Hrun : run_calls (map (fun '(d, a) => CallStep d a) cs) init =
            (e', inr (ts ++ [t])))
    (Hmid : Forall (fun u => step_type u <> LAST) ts)
    (Hlast : step_type t = LAST) :
  Qeq (fold_right Qplus 0%Q (map reward (ts ++ [t]))) (reward t) /\
  (-21 <= reward t <= 0)%Q.
Proof.
  destruct (episode_gen cs 0 e' ts t ltac:(lia) Hrun Hmid Hlast) as [Hz Hb].
  split; [|exact Hb].
  rewrite map_app, fold_right_app. simpl.
  rewrite (sum_zero_prefix ts (reward t + 0)%Q Hz). apply Qplus_0_r.
Qed.

Lemma episode_return_witness :
  run_calls (map (fun '(d, a) => CallStep d a) [(0%nat, 0); (0%nat, 1)]) init =
    (mkEnv 1 true, inr ([transition [1] 0%Q 1%Q] ++ [termination [1] (inject_Z (-20))])) /\
  Forall (fun u => step_type u <> LAST) [transition [1] 0%Q 1%Q] /\
  step_type (termination [1] (inject_Z (-20))) = LAST /\
  Qeq (fold_right Qplus 0%Q
         (map reward ([transition [1] 0%Q 1%Q] ++ [termination [1] (inject_Z (-20))])))
      (reward (termination [1] (inject_Z (-20)))) /\
  (-21 <= reward (termination [1%Z] (inject_Z (-20))) <= 0)%Q.
Proof.
  assert (Hr : run_calls (map (fun '(d, a) => CallStep d a) [(0%nat, 0); (0%nat, 1)]) init =
    (mkEnv 1 true, inr ([transition [1] 0%Q 1%Q] ++ [termination [1] (inject_Z (-20))])))
    by (vm_compute; reflexivity).
  assert (Hm : Forall (fun u => step_type u <> LAST) [transition [1] 0%Q 1%Q])
    by (constructor; [discriminate|constructor]).
  split; [exact Hr|]. split; [exact Hm|]. split; [reflexivity|].
  exact (episode_return _ _ _ _ Hr Hm eq_refl).
Defined.

End CardGameProofs.

(* ===================================================================== *)
(** * Properties of the replay buffer                                     *)
(* ===================================================================== *)

Module ReplayBufferProofs.
Import ReplayBuffer.

(** ** Lanes against the history of their writes *)

(** Two logical positions closer than [L] use different physical slots. *)
Lemma slot_distinct (L i n : nat) :
  i < n -> n - i < L -> i mod L <> n mod L.
Proof.
  intros Hin HL Heq.
  assert (HL0 : L <> 0) by lia.
  pose proof (Nat.div_mod_eq i L) as Hi.
  pose proof (Nat.div_mod_eq n L) as Hn.
  rewrite Heq in Hi.
  destruct (le_lt_dec (n / L) (i / L)) as [Hq|Hq]; nia.
Qed.

(** A lane agrees with the list [h] of the records written to it since it
    was created or cleared: logical position [i] of a live record holds
    [h !! i] in slot [i mod L]. *)
Definition lane_hist_ok (L : nat) (ln : Lane) (h : list Record) : Prop :=
  head ln = length h /\
  count ln = Nat.min (length h) L /\
  length (slots ln) = L /\
  forall i, length h - Nat.min (length h) L <= i < length h ->
            slots ln !! (i mod L) = Some (h !! i).

Lemma lane_new_hist (L : nat) : lane_hist_ok L (lane_new L) [].
Proof.
  unfold lane_hist_ok, lane_new; simpl.
  rewrite length_replicate. repeat split; intros; lia.
Qed.

Lemma lane_clear_hist (L : nat) (ln : Lane) (h : list Record) :
  lane_hist_ok L ln h -> lane_hist_ok L (mkLane (slots ln) 0 0) [].
Proof.
  intros (_ & _ & Hlen & _). unfold lane_hist_ok; simpl.
  repeat split; auto; intros; lia.
Qed.

Lemma lane_write_hist (L : nat) (ln : Lane) (h : list Record) (r : Record) :
  lane_hist_ok L ln h -> lane_hist_ok L (lane_write L ln r) (h ++ [r]).
Proof.
  intros (Hhead & Hcount & Hlen & Hslots).
  unfold lane_hist_ok, lane_write; cbn [head count slots].
  rewrite length_app, length_insert; cbn [length].
  split; [lia|]. split; [lia|]. split; [exact Hlen|].
  intros i Hi.
  destruct (Nat.eq_dec i (length h)) as [->|Hne].
  - rewrite Hhead. assert (HL : L <> 0) by lia.
    rewrite list_lookup_insert_eq by (rewrite Hlen; apply Nat.mod_upper_bound; lia).
    rewrite lookup_app_r, Nat.sub_diag by lia. reflexivity.
  - rewrite Hhead, list_lookup_insert_ne
      by (apply not_eq_sym, slot_distinct; lia).
    rewrite lookup_app_l by lia. apply Hslots. lia.
Qed.

(** Reading a lane by logical index. *)
Lemma lane_read_live (L : nat) (ln : Lane) (h : list Record) (i : nat) :
  lane_hist_ok L ln h ->
  length h - Nat.min (length h) L <= i < length h ->
  lane_read L ln i = Ok (nth i h []).
Proof.
  intros Hok Hi. pose proof Hok as (Hhead & Hcount & _ & Hslots).
  unfold lane_read. rewrite Hhead, Hcount.
  replace ((length h - Nat.min (length h) L <=? i) && (i <? length h)) with true
    by (symmetry; apply andb_true_intro; split; [apply Nat.leb_le|apply Nat.ltb_lt]; lia).
  rewrite Hslots by lia.
  destruct (lookup_lt_is_Some_2 h i) as [x Hx]; [lia|].
  rewrite Hx, (nth_lookup_Some h i [] x Hx). reflexivity.
Qed.

Lemma lane_read_dead (L : nat) (ln : Lane) (h : list Record) (i : nat) :
  lane_hist_ok L ln h ->
  ~ (length h - Nat.min (length h) L <= i < length h) ->
  lane_read L ln i = Err OutOfRange.
Proof.
  intros (Hhead & Hcount & _ & _) Hi.
  unfold lane_read. rewrite Hhead, Hcount.
  destruct (Nat.leb_spec (length h - Nat.min (length h) L) i);
    destruct (Nat.ltb_spec i (length h)); simpl; try reflexivity; lia.
Qed.

Lemma lane_read_window_hist (L : nat) (ln : Lane) (h : list Record) (s m : nat) :
  lane_hist_ok L ln h ->
  length h - Nat.min (length h) L <= s -> s + m <= length h ->
  lane_read_window L ln s m = Ok (take m (drop s h)).
Proof.
  intros Hok. revert s. induction m as [|m IH]; intros s Hs Hm.
  - reflexivity.
  - unfold lane_read_window in *. simpl.
    rewrite (lane_read_live L ln h s Hok) by lia.
    rewrite IH by lia.
    destruct (lookup_lt_is_Some_2 h s) as [x Hx]; [lia|].
    rewrite (drop_S h x s Hx). simpl.
    rewrite (nth_lookup_Some h s [] x Hx). reflexivity.
Qed.

(** ** The buffer invariant: every lane agrees with a history *)

Definition buf_hist (b : Buffer) (H : nat -> list Record) : Prop :=
  length (lanes b) = batch_size b /\
  forall j ln, lanes b !! j = Some ln -> lane_hist_ok (max_length b) ln (H j).

Definition buf_inv (b : Buffer) : Prop := exists H, buf_hist b H.

Lemma new_hist (ds : list TensorSpec) (B L : nat) :
  buf_hist (new ds B L) (fun _ => []).
Proof.
  split; [apply length_replicate|].
  intros j ln Hj. simpl in Hj. apply lookup_replicate in Hj as [-> _].
  apply lane_new_hist.
Qed.

Lemma add_batch_fail (b : Buffer) (items : list Record) (e : error) (b' : Buffer) :
  add_batch items b = (b', Err e) -> b' = b.
Proof.
  unfold add_batch.
  destruct (forallb _ _), (length items =? batch_size b)%nat; simpl;
    intros Heq; inversion Heq; reflexivity.
Qed.

Lemma add_batch_ok (b : Buffer) (items : list Record) :
  forallb (conforms (data_spec b)) items = true ->
  length items = batch_size b ->
  add_batch items b =
    (with_lanes b (zip_with (lane_write (max_length b)) (lanes b) items), Ok tt).
Proof.
  intros Hc Hl. unfold add_batch. rewrite Hc. simpl.
  rewrite Hl, Nat.eqb_refl. reflexivity.
Qed.

Lemma add_batch_hist (b : Buffer) (H : nat -> list Record) (items : list Record) :
  buf_hist b H ->
  forallb (conforms (data_spec b)) items = true ->
  length items = batch_size b ->
  buf_hist (add_batch items b).1 (fun j => H j ++ [nth j items []]).
Proof.
  intros [Hlen Hl] Hc Hn. rewrite add_batch_ok by assumption.
  unfold with_lanes, buf_hist; cbn [fst lanes batch_size max_length].
  split.
  - rewrite length_zip_with. lia.
  - intros j ln Hj. rewrite lookup_zip_with in Hj.
    destruct (lanes b !! j) as [ln0|] eqn:E0; [|discriminate]. simpl in Hj.
    destruct (items !! j) as [r|] eqn:Er; [|discriminate]. simpl in Hj.
    injection Hj as <-. rewrite (nth_lookup_Some items j [] r Er).
    apply lane_write_hist, Hl, E0.
Qed.

Lemma clear_hist (b : Buffer) (H : nat -> list Record) :
  buf_hist b H -> buf_hist (clear b) (fun _ => []).
Proof.
  intros [Hlen Hl]. split; simpl.
  - rewrite length_map. exact Hlen.
  - intros j ln Hj. rewrite list_lookup_fmap in Hj.
    destruct (lanes b !! j) as [ln0|] eqn:E0; [|discriminate].
    injection Hj as <-. eapply lane_clear_hist, Hl, E0.
Qed.

Lemma exec_inv (b : Buffer) (o : op) : buf_inv b -> buf_inv (exec b o).
Proof.
  intros [H Hb]. destruct o as [items| | | |]; simpl; try (exists H; exact Hb).
  - destruct (add_batch items b) as [b' r] eqn:E.
    destruct r as [[]|e].
    + unfold add_batch in E.
      destruct (forallb (conforms (data_spec b)) items) eqn:Hc; [|discriminate].
      destruct (Nat.eqb_spec (length items) (batch_size b)) as [Hn|]; [|discriminate].
      exists (fun j => H j ++ [nth j items []]).
      pose proof (add_batch_hist b H items Hb Hc Hn) as Hh.
      rewrite add_batch_ok in Hh by assumption.
      cbn [negb] in E. injection E as <-. exact Hh.
    + apply add_batch_fail in E. simpl. subst. exists H. exact Hb.
  - eexists. eapply clear_hist, Hb.
Qed.

Lemma exec_ops_inv (b : Buffer) (ops : list op) : buf_inv b -> buf_inv (exec_ops b ops).
Proof.
  unfold exec_ops. revert b. induction ops as [|o ops IH]; intros b Hb; simpl.
  - exact Hb.
  - apply IH, exec_inv, Hb.
Qed.

(** The fixed parameters of a buffer are those it was created with. *)
Definition same_params (b b' : Buffer) : Prop :=
  data_spec b' = data_spec b /\ batch_size b' = batch_size b /\
  max_length b' = max_length b /\ capacity b' = capacity b.

Lemma exec_params (b : Buffer) (o : op) : same_params b (exec b o).
Proof.
  unfold same_params. destruct o as [items| | | |]; simpl; try tauto.
  unfold add_batch.
  destruct (forallb _ _), (length items =? batch_size b)%nat; simpl; tauto.
Qed.

Lemma exec_ops_params (b : Buffer) (ops : list op) : same_params b (exec_ops b ops).
Proof.
  unfold exec_ops. revert b. induction ops as [|o ops IH]; intros b; simpl.
  - unfold same_params; tauto.
  - destruct (exec_params b o) as (H1 & H2 & H3 & H4).
    destruct (IH (exec b o)) as (I1 & I2 & I3 & I4).
    unfold same_params. rewrite I1, I2, I3, I4. tauto.
Qed.

(** ** Operations since the last [clear] *)

Lemma exec_ops_log (b : Buffer) (H : nat -> list Record) (ops : list op) :
  buf_hist b H ->
  buf_hist (exec_ops b ops)
    (fun j => lane_log_from (data_spec b) (batch_size b) j (H j) ops).
Proof.
  unfold exec_ops. revert b H. induction ops as [|o ops IH]; intros b H Hb.
  - exact Hb.
  - cbn [foldl]. destruct (exec_params b o) as (P1 & P2 & _).
    destruct o as [items| | | |]; cbn [lane_log_from exec] in *;
      try (apply IH; exact Hb).
    + destruct (forallb (conforms (data_spec b)) items) eqn:Hc;
        destruct (Nat.eqb_spec (length items) (batch_size b)) as [Hn|Hn];
        cbn [andb].
      * rewrite <- P1, <- P2. apply IH. apply add_batch_hist; assumption.
      * replace (add_batch items b).1 with b in *
          by (unfold add_batch; rewrite Hc; simpl;
              destruct (Nat.eqb_spec (length items) (batch_size b)); [lia|reflexivity]).
        apply IH. exact Hb.
      * replace (add_batch items b).1 with b in *
          by (unfold add_batch; rewrite Hc; reflexivity).
        apply IH. exact Hb.
      * replace (add_batch items b).1 with b in *
          by (unfold add_batch; rewrite Hc; reflexivity).
        apply IH. exact Hb.
    + rewrite <- P1, <- P2. apply (IH (clear b) (fun _ => [])).
      eapply clear_hist, Hb.
Qed.

Lemma exec_ops_new_log (ds : list TensorSpec) (B L : nat) (ops : list op) :
  buf_hist (exec_ops (new ds B L) ops) (fun j => lane_log ds B j ops).
Proof. exact (exec_ops_log (new ds B L) (fun _ => []) ops (new_hist ds B L)). Qed.

(** ** Successive valid writes *)

Lemma run_adds_hist (b : Buffer) (H : nat -> list Record) (bs : list (list Record)) :
  buf_hist b H ->
  Forall (valid_batch (data_spec b) (batch_size b)) bs ->
  let '(b', rs) := run_adds b bs in
  Forall (fun r => r = Ok tt) rs /\ same_params b b' /\
  buf_hist b' (fun j => H j ++ lane_history j bs).
Proof.
  revert b H. induction bs as [|items bs IH]; intros b H Hb Hv; simpl.
  - split; [constructor|]. split; [unfold same_params; tauto|].
    destruct Hb as [Hlen Hl]. split; [exact Hlen|].
    intros j ln Hj. rewrite app_nil_r. apply Hl, Hj.
  - inversion Hv as [|? ? [Hn Hc] Hv']; subst.
    assert (Hc' : forallb (conforms (data_spec b)) items = true)
      by (apply forallb_forall; intros r Hr; rewrite List.Forall_forall in Hc; auto).
    pose proof (add_batch_hist b H items Hb Hc' Hn) as Hh.
    rewrite add_batch_ok in Hh |- * by assumption. cbn [fst] in Hh.
    specialize (IH _ _ Hh Hv').
    destruct (run_adds _ bs) as [b2 rs] eqn:E.
    destruct IH as (Hrs & Hp & Hh2).
    split; [constructor; auto|]. split.
    + destruct Hp as (P1 & P2 & P3 & P4). simpl in *. unfold same_params. tauto.
    + destruct Hh2 as [Hlen Hl]. split; [exact Hlen|].
      intros j ln Hj.
      specialize (Hl j ln Hj). rewrite <- app_assoc in Hl. exact Hl.
Qed.

Lemma lane_history_nth (j i : nat) (bs : list (list Record)) :
  nth i (lane_history j bs) [] = nth j (nth i bs []) [].
Proof.
  revert i. induction bs as [|items bs IH]; intros [|i]; simpl; auto;
    destruct j; reflexivity.
Qed.

Lemma length_lane_history (j : nat) (bs : list (list Record)) :
  length (lane_history j bs) = length bs.
Proof. apply length_map. Qed.

(** Claim C1: after [N] valid [add_batch] calls on a new buffer every lane
    holds [min N max_length] live records, and whatever operations follow,
    no lane ever holds more than [max_length]. *)
Theorem add_batch_live_count (ds : list TensorSpec) (B L : nat)
    (bs : list (list Record)) (ops : list op)
    (Hvalid : Forall (valid_batch ds B) bs) :
  let '(b, rs) := run_adds (new ds B L) bs in
  Forall (fun r => r = Ok tt) rs /\
  length (lanes b) = B /\
  Forall (fun ln => count ln = Nat.min (length bs) L) (lanes b) /\
  Forall (fun ln => count ln <= L) (lanes (exec_ops b ops)).
Proof.
  pose proof (run_adds_hist (new ds B L) (fun _ => []) bs (new_hist ds B L) Hvalid) as Hr.
  destruct (run_adds (new ds B L) bs) as [b rs].
  destruct Hr as (Hrs & (P1 & P2 & P3 & P4) & [Hlen Hl]).
  cbn [data_spec batch_size max_length capacity new] in P1, P2, P3, P4.
  split; [exact Hrs|]. split; [lia|]. split.
  - apply Forall_lookup_2. intros j ln Hj. destruct (Hl j ln Hj) as (_ & Hc & _).
    rewrite Hc, app_nil_l, length_lane_history, P3. reflexivity.
  - destruct (exec_ops_params b ops) as (_ & _ & Q3 & _).
    destruct (exec_ops_inv b ops (ex_intro _ _ (conj Hlen Hl))) as [H' [_ Hl']].
    apply Forall_lookup_2. intros j ln Hj. destruct (Hl' j ln Hj) as (_ & Hc & _). lia.
Qed.

Lemma add_batch_live_count_witness :
  Forall (valid_batch [] 2) [[[]; []]; [[]; []]] /\
  Forall (fun ln => count ln = 1%nat)
    (lanes (run_adds (new [] 2 1) [[[]; []]; [[]; []]]).1).
Proof.
  assert (Hv : Forall (valid_batch [] 2) [[[]; []]; [[]; []]])
    by (repeat constructor).
  split; [exact Hv|].
  exact (proj1 (proj2 (proj2 (add_batch_live_count [] 2 1 _ [] Hv)))).
Defined.

(** Claim C2: once more than [max_length] records were written to a lane,
    reading an evicted logical index fails with [OutOfRange], the newest
    [max_length] records are read back by their logical index, and none of
    the writes failed. *)
Theorem eviction_by_logical_index (ds : list TensorSpec) (B L : nat)
    (bs : list (list Record))
    (Hvalid : Forall (valid_batch ds B) bs) (Hmore : L < length bs) :
  let '(b, rs) := run_adds (new ds B L) bs in
  Forall (fun r => r = Ok tt) rs /\
  forall j, j < B -> exists ln, lanes b !! j = Some ln /\
    (forall i, i < length bs - L -> lane_read L ln i = Err OutOfRange) /\
    (forall i, length bs - L <= i < length bs ->
               lane_read L ln i = Ok (nth j (nth i bs []) [])).
Proof.
  pose proof (run_adds_hist (new ds B L) (fun _ => []) bs (new_hist ds B L) Hvalid) as Hr.
  destruct (run_adds (new ds B L) bs) as [b rs].
  destruct Hr as (Hrs & (P1 & P2 & P3 & P4) & [Hlen Hl]).
  cbn [data_spec batch_size max_length capacity new] in P1, P2, P3, P4.
  split; [exact Hrs|]. intros j Hj.
  destruct (lookup_lt_is_Some_2 (lanes b) j) as [ln Hln]; [lia|].
  exists ln. split; [exact Hln|].
  pose proof (Hl j ln Hln) as Hok. rewrite P3, app_nil_l in Hok.
  assert (Hmin : Nat.min (length (lane_history j bs)) L = L)
    by (rewrite length_lane_history; lia).
  split.
  - intros i Hi. apply (lane_read_dead L ln (lane_history j bs) i Hok).
    rewrite Hmin, length_lane_history. lia.
  - intros i Hi. rewrite (lane_read_live L ln (lane_history j bs) i Hok)
      by (rewrite Hmin, length_lane_history; lia).
    rewrite lane_history_nth. reflexivity.
Qed.

Lemma eviction_by_logical_index_witness :
  Forall (valid_batch [] 1) [[[]]; [[]]] /\ 1 < length ([[[]]; [[]]] : list (list Record)) /\
  Forall (fun r => r = Ok tt) (run_adds (new [] 1 1) [[[]]; [[]]]).2.
Proof.
  assert (Hv : Forall (valid_batch [] 1) [[[]]; [[]]]) by (repeat constructor).
  assert (Hm : 1 < length ([[[]]; [[]]] : list (list Record))) by (simpl; lia).
  split; [exact Hv|]. split; [exact Hm|].
  exact (proj1 (eviction_by_logical_index [] 1 1 _ Hv Hm)).
Defined.

(** Claim C3: a new buffer has capacity [batch_size * max_length] and
    [batch_size] lanes; no sequence of operations changes its capacity,
    data specification, batch size, lane length or number of lanes. *)
Theorem capacity_and_spec_fixed (ds : list TensorSpec) (B L : nat) (ops : list op) :
  capacity (new ds B L) = B * L /\ length (lanes (new ds B L)) = B /\
  data_spec (new ds B L) = ds /\
  (let b := exec_ops (new ds B L) ops in
   capacity b = B * L /\ data_spec b = ds /\ batch_size b = B /\
   max_length b = L /\ length (lanes b) = B).
Proof.
  split; [reflexivity|]. split; [apply length_replicate|]. split; [reflexivity|].
  destruct (exec_ops_params (new ds B L) ops) as (P1 & P2 & P3 & P4).
  destruct (exec_ops_inv (new ds B L) ops (ex_intro _ _ (new_hist ds B L)))
    as [H [Hlen _]].
  cbn [data_spec batch_size max_length capacity new] in P1, P2, P3, P4.
  simpl. rewrite Hlen. tauto.
Qed.

(** Claim C4, as stated, at a batch that is both of the wrong size and
    holds a record of the wrong shape: the call does not fail with
    [BatchSizeMismatch] although [len(items) != batch_size]. *)
Lemma add_batch_errors_counterexample :
  length [Examples.bad_action_rec; Examples.bad_action_rec]
    <> batch_size (new Examples.action_spec 1 3) /\
  (add_batch [Examples.bad_action_rec; Examples.bad_action_rec]
     (new Examples.action_spec 1 3)).2 <> Err BatchSizeMismatch.
Proof. split; [simpl; lia|]. vm_compute. discriminate. Qed.

(** Claim C4 (amended): a batch holding a record that disagrees with the
    data specification fails with [SpecMismatch]; a batch of conforming
    records whose length is not [batch_size] fails with
    [BatchSizeMismatch]; both failures leave the buffer (every lane's head
    and count) as it was; otherwise record [i] is written to lane [i]. *)
Theorem add_batch_outcomes (b : Buffer) (items : list Record)
    (Hb : length (lanes b) = batch_size b) :
  (Exists (fun r => conforms (data_spec b) r = false) items ->
     add_batch items b = (b, Err SpecMismatch)) /\
  (Forall (fun r => conforms (data_spec b) r = true) items ->
   length items <> batch_size b ->
     add_batch items b = (b, Err BatchSizeMismatch)) /\
  (Forall (fun r => conforms (data_spec b) r = true) items ->
   length items = batch_size b ->
     exists b', add_batch items b = (b', Ok tt) /\ same_params b b' /\
       length (lanes b') = length (lanes b) /\
       forall j ln, lanes b !! j = Some ln ->
         exists r, items !! j = Some r /\
                   lanes b' !! j = Some (lane_write (max_length b) ln r)).
Proof.
  assert (Hall : Forall (fun r => conforms (data_spec b) r = true) items ->
                 forallb (conforms (data_spec b)) items = true).
  { intros Hf. apply forallb_forall. intros r Hr.
    rewrite List.Forall_forall in Hf. auto. }
  split; [|split].
  - intros Hex. unfold add_batch.
    replace (forallb (conforms (data_spec b)) items) with false; [reflexivity|].
    symmetry. apply not_true_iff_false. intros Hf.
    rewrite forallb_forall in Hf. apply List.Exists_exists in Hex as (r & Hr & Hr').
    rewrite Hf in Hr' by exact Hr. discriminate.
  - intros Hf Hn. unfold add_batch. rewrite (Hall Hf). cbn [negb].
    apply Nat.eqb_neq in Hn. rewrite Hn. reflexivity.
  - intros Hf Hn. rewrite add_batch_ok by auto.
    eexists. split; [reflexivity|]. split; [unfold same_params; simpl; tauto|].
    cbn [lanes with_lanes]. split; [rewrite length_zip_with; lia|].
    intros j ln Hj.
    destruct (lookup_lt_is_Some_2 items j) as [r Hr].
    { apply lookup_lt_Some in Hj. lia. }
    exists r. split; [exact Hr|]. rewrite lookup_zip_with, Hj, Hr. reflexivity.
Qed.

Lemma add_batch_outcomes_witness :
  length (lanes (new Examples.action_spec 1 3)) = batch_size (new Examples.action_spec 1 3) /\
  add_batch [Examples.bad_action_rec] (new Examples.action_spec 1 3)
    = (new Examples.action_spec 1 3, Err SpecMismatch).
Proof.
  assert (Hb : length (lanes (new Examples.action_spec 1 3))
               = batch_size (new Examples.action_spec 1 3)) by reflexivity.
  split; [exact Hb|].
  apply (proj1 (add_batch_outcomes _ [Examples.bad_action_rec] Hb)).
  apply List.Exists_cons_hd. reflexivity.
Defined.

(** ** Sampling *)

Lemma mapR_err {A B} (f : A -> result B) (l : list A) (e : error) :
  mapR f l = Err e -> exists x, In x l /\ f x = Err e.
Proof.
  induction l as [|x l IH]; simpl; [discriminate|].
  destruct (f x) as [y|e'] eqn:Ef.
  - destruct (mapR f l) as [ys|e''] eqn:El; [discriminate|].
    intros [= <-]. destruct IH as (z & Hz & Hfz); [reflexivity|]. eauto.
  - intros [= <-]. eauto.
Qed.

Lemma mapR_ok_length {A B} (f : A -> result B) (l : list A) (ys : list B) :
  mapR f l = Ok ys -> length ys = length l.
Proof.
  revert ys. induction l as [|x l IH]; simpl; intros ys.
  - intros [= <-]. reflexivity.
  - destruct (f x); [|discriminate].
    destruct (mapR f l) as [ys'|] eqn:El; [|discriminate].
    intros [= <-]. simpl. f_equal. apply IH. reflexivity.
Qed.

Lemma lane_read_err (L : nat) (ln : Lane) (i : nat) (e : error) :
  lane_read L ln i = Err e -> e = OutOfRange.
Proof.
  unfold lane_read. destruct (_ && _); [|congruence].
  destruct (slots ln !! _) as [[r|]|]; congruence.
Qed.

Lemma read_pick_err (b : Buffer) (m : nat) (c : nat * nat) (e : error) :
  read_pick b m c = Err e -> e = OutOfRange.
Proof.
  unfold read_pick. destruct (lanes b !! c.1) as [ln|]; [|congruence].
  unfold lane_read_window. intros He.
  apply mapR_err in He as (i & _ & Hi). eapply lane_read_err, Hi.
Qed.

Lemma read_pick_length (b : Buffer) (m : nat) (c : nat * nat) (w : list Record) :
  read_pick b m c = Ok w -> length w = m.
Proof.
  unfold read_pick. destruct (lanes b !! c.1) as [ln|]; [|discriminate].
  unfold lane_read_window. intros Hw. apply mapR_ok_length in Hw.
  rewrite Hw. apply length_seq.
Qed.

Lemma sample_all_err (b : Buffer) (m : nat) (dl : list (list (nat * nat))) (e : error) :
  sample_all b m dl = Some (Err e) -> e = OutOfRange.
Proof.
  induction dl as [|d dl IH]; simpl; [discriminate|].
  unfold sample_one. destruct (find _ d) as [c|]; [|discriminate].
  destruct (read_pick b m c) as [w|e'] eqn:Ec.
  - destruct (sample_all b m dl) as [[ws|e'']|]; try discriminate.
    intros [= <-]. apply IH. reflexivity.
  - intros [= <-]. eapply read_pick_err, Ec.
Qed.

Lemma sample_all_ok (b : Buffer) (m : nat) (dl : list (list (nat * nat)))
    (ws : list (list Record)) :
  sample_all b m dl = Some (Ok ws) ->
  length ws = length dl /\
  Forall (fun w => exists c, window_valid b m c = true /\ read_pick b m c = Ok w) ws.
Proof.
  revert ws. induction dl as [|d dl IH]; simpl; intros ws.
  - intros [= <-]. split; [reflexivity|constructor].
  - unfold sample_one. destruct (find _ d) as [c|] eqn:Ef; [|discriminate].
    apply find_some in Ef as [_ Hc].
    destruct (read_pick b m c) as [w|e'] eqn:Ec; [|discriminate].
    destruct (sample_all b m dl) as [[ws'|e'']|]; try discriminate.
    intros [= <-]. destruct (IH ws' eq_refl) as [Hl Hf].
    split; [simpl; lia|]. constructor; [eauto|exact Hf].
Qed.

(** On a buffer agreeing with histories, every valid window is read back. *)
Lemma read_pick_valid (b : Buffer) (H : nat -> list Record) (m : nat) (c : nat * nat) :
  buf_hist b H -> window_valid b m c = true ->
  read_pick b m c = Ok (take m (drop c.2 (H c.1))).
Proof.
  intros [_ Hl]. unfold window_valid, read_pick.
  destruct (lanes b !! c.1) as [ln|] eqn:Eln; [|discriminate].
  intros Hv. apply andb_prop in Hv as [H1 H2].
  apply Nat.leb_le in H1, H2.
  pose proof (Hl _ _ Eln) as Hok. pose proof Hok as (Hhead & Hcount & _).
  apply lane_read_window_hist; [exact Hok| |]; lia.
Qed.

Lemma sample_all_success (b : Buffer) (H : nat -> list Record) (m : nat)
    (dl : list (list (nat * nat))) :
  buf_hist b H ->
  Forall (fun d => exists c, In c d /\ window_valid b m c = true) dl ->
  exists ws, sample_all b m dl = Some (Ok ws).
Proof.
  intros Hb. induction dl as [|d dl IH]; intros Hd; simpl; [eauto|].
  inversion Hd as [|? ? (c0 & Hin & Hv0) Hd']; subst.
  unfold sample_one. destruct (find (window_valid b m) d) as [c|] eqn:Ef.
  - apply find_some in Ef as [_ Hc]. rewrite (read_pick_valid b H m c Hb Hc).
    destruct (IH Hd') as [ws ->]. eauto.
  - pose proof (find_none _ _ Ef c0 Hin). congruence.
Qed.

(** Claim C5: on every reachable buffer, [get_next] fails with
    [InsufficientData] exactly when no lane holds [num_steps] records; a
    successful call returns [sample_batch_size] windows of [num_steps]
    records; with [num_steps = 1] each window is one record read at a live
    logical index; and when some lane holds enough records the call
    succeeds (once the sampler's draws end its rejection loop). *)
Theorem get_next_contract (ds : list TensorSpec) (B L : nat) (ops : list op)
    (k m : nat) (draws : list (list (nat * nat))) :
  let b := exec_ops (new ds B L) ops in
  (get_next k m draws b = Some (Err InsufficientData) <->
     Forall (fun ln => count ln < m) (lanes b)) /\
  (forall ws, get_next k m draws b = Some (Ok ws) ->
     length ws = k /\ Forall (fun w => length w = m) ws) /\
  (m = 1 -> forall ws, get_next k m draws b = Some (Ok ws) ->
     length ws = k /\
     Forall (fun w => exists j ln i r, lanes b !! j = Some ln /\
                        head ln - count ln <= i < head ln /\
                        lane_read L ln i = Ok r /\ w = [r]) ws) /\
  ((exists ln, In ln (lanes b) /\ m <= count ln) ->
   (forall i, i < k -> exists c, In c (nth i draws []) /\ window_valid b m c = true) ->
   exists ws, get_next k m draws b = Some (Ok ws)).
Proof.
  intros b.
  destruct (exec_ops_params (new ds B L) ops) as (_ & _ & HL & _).
  cbn [max_length new] in HL. fold b in HL.
  destruct (exec_ops_inv (new ds B L) ops (ex_intro _ _ (new_hist ds B L))) as [H Hb].
  fold b in Hb.
  unfold get_next.
  destruct (existsb (fun ln => m <=? count ln) (lanes b)) eqn:Eex.
  - apply existsb_exists in Eex as (ln0 & Hin0 & Hc0).
    split; [|split; [|split]].
    + split.
      * intros Hs. apply sample_all_err in Hs. discriminate.
      * intros Hf. rewrite List.Forall_forall in Hf. apply Hf in Hin0.
        apply Nat.leb_le in Hc0. lia.
    + intros ws Hs. apply sample_all_ok in Hs as [Hl Hf].
      rewrite length_map, length_seq in Hl. split; [exact Hl|].
      eapply Forall_impl; [exact Hf|]. intros w (c & _ & Hc).
      eapply read_pick_length, Hc.
    + intros -> ws Hs. apply sample_all_ok in Hs as [Hl Hf].
      rewrite length_map, length_seq in Hl. split; [exact Hl|].
      eapply Forall_impl; [exact Hf|]. intros w ([j s] & Hv & Hc).
      unfold window_valid, read_pick in Hv, Hc. simpl in Hv, Hc.
      destruct (lanes b !! j) as [ln|] eqn:Eln; [|discriminate].
      apply andb_prop in Hv as [H1 H2]. apply Nat.leb_le in H1, H2.
      unfold lane_read_window in Hc. simpl in Hc. rewrite HL in Hc.
      destruct (lane_read L ln s) as [r|] eqn:Er; [|discriminate].
      injection Hc as <-. exists j, ln, s, r. repeat split; auto; lia.
    + intros _ Hd. eapply sample_all_success; [exact Hb|].
      apply List.Forall_forall. intros d Hd'.
      apply in_map_iff in Hd' as (i & <- & Hi). apply in_seq in Hi.
      apply Hd. lia.
  - split; [|split; [|split]].
    + split; [intros _|reflexivity].
      apply List.Forall_forall. intros ln Hin.
      destruct (Nat.leb_spec m (count ln)) as [Hle|Hlt]; [|exact Hlt].
      exfalso. apply not_true_iff_false in Eex. apply Eex, existsb_exists.
      exists ln. split; [exact Hin|]. apply Nat.leb_le, Hle.
    + discriminate.
    + intros _ ws; discriminate.
    + intros (ln & Hin & Hle). exfalso.
      apply not_true_iff_false in Eex. apply Eex, existsb_exists.
      exists ln. split; [exact Hin|]. apply Nat.leb_le, Hle.
Qed.

Lemma get_next_contract_witness :
  let b := exec_ops (new Examples.action_spec 1 3) [OpAddBatch [Examples.action_rec 1]] in
  (exists ln, In ln (lanes b) /\ 1 <= count ln) /\
  (forall i, i < 2 -> exists c, In c (nth i [[(0, 0)]; [(0, 0)]] []) /\ window_valid b 1 c = true) /\
  exists ws, get_next 2 1 [[(0, 0)]; [(0, 0)]] b = Some (Ok ws).
Proof.
  intros b.
  assert (H1 : exists ln, In ln (lanes b) /\ 1 <= count ln).
  { eexists. split; [left; reflexivity|]. vm_compute. lia. }
  assert (H2 : forall i, i < 2 ->
            exists c, In c (nth i [[(0, 0)]; [(0, 0)]] []) /\ window_valid b 1 c = true).
  { intros [|[|i]] Hi; try lia; exists (0, 0); split;
      solve [left; reflexivity | vm_compute; reflexivity]. }
  split; [exact H1|]. split; [exact H2|].
  exact (proj2 (proj2 (proj2 (get_next_contract Examples.action_spec 1 3
           [OpAddBatch [Examples.action_rec 1]] 2 1 [[(0, 0)]; [(0, 0)]]))) H1 H2).
Defined.

Lemma get_next_from_windows (b : Buffer) (k m : nat) (draws : list (list (nat * nat)))
    (ws : list (list Record)) :
  get_next k m draws b = Some (Ok ws) ->
  Forall (fun w => exists c, window_valid b m c = true /\ read_pick b m c = Ok w) ws.
Proof.
  unfold get_next. destruct (existsb _ _); [|discriminate].
  intros Hs. apply sample_all_ok in Hs as [_ Hf]. exact Hf.
Qed.

(** Claim C6: on every buffer reachable from [new] by any operations
    (writes, rejected writes, reads, [clear]), every window returned by
    [get_next] is [num_steps] consecutive records of one lane, in insertion
    order, among the records written to that lane since the last [clear],
    none of them evicted; in the scenario [batch_size = 1],
    [max_length = 3] with R1, R2, R3, R4 written, the lane holds
    [R2; R3; R4] and a window of two records is [R2; R3] or [R3; R4], never
    [R1; R2]. *)
Theorem get_next_windows :
  (forall (ds : list TensorSpec) (B L : nat) (ops : list op)
          (k m : nat) (draws : list (list (nat * nat))) (ws : list (list Record)),
     get_next k m draws (exec_ops (new ds B L) ops) = Some (Ok ws) ->
     Forall (fun w => exists j s, j < B /\
               length (lane_log ds B j ops)
                 - Nat.min (length (lane_log ds B j ops)) L <= s /\
               s + m <= length (lane_log ds B j ops) /\
               w = take m (drop s (lane_log ds B j ops))) ws) /\
  (let R := Examples.action_rec in
   let b := (run_adds (new Examples.action_spec 1 3) [[R 1%Z]; [R 2%Z]; [R 3%Z]; [R 4%Z]]).1 in
   gather_all b = Ok [[R 2%Z; R 3%Z; R 4%Z]] /\
   forall k draws ws, get_next k 2 draws b = Some (Ok ws) ->
     Forall (fun w => w = [R 2%Z; R 3%Z] \/ w = [R 3%Z; R 4%Z]) ws /\ ~ In [R 1%Z; R 2%Z] ws).
Proof.
  split.
  - intros ds B L ops k m draws ws Hget.
    pose proof (exec_ops_new_log ds B L ops) as Hb.
    destruct (exec_ops_params (new ds B L) ops) as (_ & P2 & P3 & _).
    set (b := exec_ops (new ds B L) ops) in *.
    cbn [batch_size max_length new] in P2, P3.
    apply get_next_from_windows in Hget.
    eapply Forall_impl; [exact Hget|]. intros w ([j s] & Hv & Hc).
    rewrite (read_pick_valid b _ m (j, s) Hb Hv) in Hc. injection Hc as <-.
    destruct Hb as [Hlen Hl]. unfold window_valid in Hv. simpl in Hv.
    destruct (lanes b !! j) as [ln|] eqn:Eln; [|discriminate].
    apply andb_prop in Hv as [H1 H2]. apply Nat.leb_le in H1, H2.
    pose proof (Hl j ln Eln) as (Hhead & Hcount & _).
    rewrite P3 in Hcount.
    apply lookup_lt_Some in Eln.
    exists j, s. split; [lia|]. split; [lia|]. split; [lia|]. reflexivity.
  - intros R b. split; [vm_compute; reflexivity|].
    intros k draws ws Hget.
    assert (Hv : Forall (valid_batch Examples.action_spec 1)
                   [[R 1%Z]; [R 2%Z]; [R 3%Z]; [R 4%Z]]).
    { repeat constructor. }
    pose proof (run_adds_hist (new Examples.action_spec 1 3) (fun _ => []) _
                  (new_hist Examples.action_spec 1 3) Hv) as Hr.
    fold b in Hget.
    destruct (run_adds (new Examples.action_spec 1 3) _) as [b' rs] eqn:Eb.
    simpl in b. subst b.
    destruct Hr as (_ & (P1 & P2 & P3 & P4) & Hb).
    cbn [data_spec batch_size max_length capacity new] in P1, P2, P3, P4.
    apply get_next_from_windows in Hget.
    assert (Hw' : Forall (fun w => w = [R 2%Z; R 3%Z] \/ w = [R 3%Z; R 4%Z]) ws).
    { eapply Forall_impl; [exact Hget|]. intros w ([j s] & Hv' & Hc).
      rewrite (read_pick_valid b' _ 2 (j, s) Hb Hv') in Hc. injection Hc as <-.
      destruct Hb as [Hlen Hl]. unfold window_valid in Hv'. simpl in Hv'.
      destruct (lanes b' !! j) as [ln|] eqn:Eln; [|discriminate].
      apply andb_prop in Hv' as [H1 H2]. apply Nat.leb_le in H1, H2.
      pose proof (Hl j ln Eln) as (Hhead & Hcount & _).
      rewrite app_nil_l, length_lane_history in Hhead, Hcount. rewrite P3 in Hcount.
      apply lookup_lt_Some in Eln. simpl in Hhead, Hcount.
      assert (j = 0) as -> by lia.
      assert (s = 1 \/ s = 2) as [-> | ->] by lia; [left|right]; reflexivity. }
    split; [exact Hw'|]. intros Hin.
    rewrite List.Forall_forall in Hw'. destruct (Hw' _ Hin) as [E|E];
      vm_compute in E; discriminate.
Qed.

Lemma get_next_windows_witness :
  let R := Examples.action_rec in
  let ops := [OpAddBatch [R 1%Z]; OpAddBatch [R 2%Z]; OpAddBatch [R 3%Z]; OpClear;
              OpAddBatch [R 4%Z]; OpAddBatch [R 5%Z]] in
  get_next 1 2 [[(0, 0)]] (exec_ops (new Examples.action_spec 1 3) ops)
    = Some (Ok [[R 4%Z; R 5%Z]]) /\
  Forall (fun w => exists j s, j < 1 /\
            length (lane_log Examples.action_spec 1 j ops)
              - Nat.min (length (lane_log Examples.action_spec 1 j ops)) 3 <= s /\
            s + 2 <= length (lane_log Examples.action_spec 1 j ops) /\
            w = take 2 (drop s (lane_log Examples.action_spec 1 j ops)))
    [[R 4%Z; R 5%Z]].
Proof.
  intros R ops.
  assert (Hg : get_next 1 2 [[(0, 0)]] (exec_ops (new Examples.action_spec 1 3) ops)
                 = Some (Ok [[R 4%Z; R 5%Z]]))
    by (vm_compute; reflexivity).
  split; [exact Hg|].
  exact (proj1 get_next_windows _ 1 3 ops 1 2 [[(0, 0)]] _ Hg).
Defined.

(** ** Clearing and gathering *)

Lemma mapR_const_nil {A B} (f : A -> result (list B)) (l : list A) :
  (forall x, In x l -> f x = Ok []) -> mapR f l = Ok (replicate (length l) []).
Proof.
  induction l as [|x l IH]; intros Hf; simpl; [reflexivity|].
  rewrite (Hf x (or_introl eq_refl)), IH by (intros y Hy; apply Hf; right; exact Hy).
  reflexivity.
Qed.

Lemma gather_all_empty (b : Buffer) :
  Forall (fun ln => count ln = 0) (lanes b) ->
  gather_all b = Ok (replicate (length (lanes b)) []).
Proof.
  intros Hz. rewrite List.Forall_forall in Hz. unfold gather_all.
  destruct (lanes b) as [|ln0 ls] eqn:El; [reflexivity|].
  rewrite <- El in Hz |- *.
  replace (forallb _ (lanes b)) with true.
  - apply mapR_const_nil. intros ln Hin. unfold lane_live.
    rewrite (Hz ln Hin). reflexivity.
  - symmetry. apply forallb_forall. intros ln Hin. apply Nat.eqb_eq.
    rewrite (Hz ln Hin), (Hz ln0) by (rewrite El; left; reflexivity). reflexivity.
Qed.

(** Claim C7: [clear()] sets head and count of every lane to zero and keeps
    the number of lanes, the capacity and the data specification, after
    which [gather_all()] returns one empty snapshot per lane; [gather_all()]
    on a new buffer also returns one empty snapshot per lane. *)
Theorem clear_and_gather_all (b : Buffer) (ds : list TensorSpec) (B L : nat) :
  Forall (fun ln => head ln = 0 /\ count ln = 0) (lanes (clear b)) /\
  length (lanes (clear b)) = length (lanes b) /\
  same_params b (clear b) /\
  gather_all (clear b) = Ok (replicate (length (lanes b)) []) /\
  gather_all (new ds B L) = Ok (replicate B []).
Proof.
  assert (Hc : Forall (fun ln => head ln = 0 /\ count ln = 0) (lanes (clear b))).
  { simpl. apply Forall_fmap. apply List.Forall_forall. intros; simpl; auto. }
  assert (Hl : length (lanes (clear b)) = length (lanes b)) by apply length_map.
  split; [exact Hc|]. split; [exact Hl|].
  split; [unfold same_params; simpl; tauto|]. split.
  - rewrite <- Hl. apply gather_all_empty.
    eapply Forall_impl; [exact Hc|]. intros ln [_ Hz]; exact Hz.
  - rewrite <- (length_replicate B (lane_new L)) at 2.
    apply gather_all_empty. simpl. apply Forall_replicate. reflexivity.
Qed.

(** ** The distribution of one pick *)

Lemma length_filter_eq_notin (l : list (nat * nat)) (w : nat * nat) :
  ~ In w l -> length (List.filter (fun c => bool_decide (c = w)) l) = 0.
Proof.
  induction l as [|c l IH]; intros Hin; [reflexivity|]. cbn [List.filter].
  rewrite bool_decide_eq_false_2.
  - apply IH. intros H'. apply Hin. right. exact H'.
  - intros ->. apply Hin. left. reflexivity.
Qed.

Lemma length_filter_eq_NoDup (l : list (nat * nat)) (w : nat * nat) :
  List.NoDup l -> In w l -> length (List.filter (fun c => bool_decide (c = w)) l) = 1.
Proof.
  induction l as [|c l IH]; intros Hnd Hin; [destruct Hin|].
  inversion Hnd as [|? ? Hnot Hnd']; subst. cbn [List.filter].
  destruct Hin as [->|Hin].
  - rewrite bool_decide_eq_true_2 by reflexivity. cbn [length].
    rewrite length_filter_eq_notin by exact Hnot. reflexivity.
  - rewrite bool_decide_eq_false_2 by (intros ->; contradiction).
    apply IH; assumption.
Qed.

Lemma list_prod_NoDup (l1 l2 : list nat) :
  List.NoDup l1 -> List.NoDup l2 -> List.NoDup (list_prod l1 l2).
Proof.
  intros H1 H2. induction H1 as [|x l1 Hx H1 IH]; simpl; [constructor|].
  apply List.NoDup_app; [| exact IH |].
  - apply List.NoDup_map_NoDup_ForallPairs; [|exact H2].
    intros a c _ _ Heq. injection Heq. auto.
  - intros [a c] Hin Hin'. apply in_map_iff in Hin as (c' & Heq & _).
    injection Heq as -> ->.
    apply in_prod_iff in Hin' as [Hx' _]. contradiction.
Qed.

Lemma max_head_ge (b : Buffer) (ln : Lane) : In ln (lanes b) -> head ln <= max_head b.
Proof.
  unfold max_head. induction (lanes b) as [|x l IH]; simpl; [tauto|].
  intros [->|Hin]; [lia|]. specialize (IH Hin). lia.
Qed.

Lemma valid_in_grid (b : Buffer) (m : nat) (w : nat * nat) :
  window_valid b m w = true -> In w (grid b).
Proof.
  destruct w as [l s]. unfold window_valid, grid. cbn [fst snd].
  destruct (lanes b !! l) as [ln|] eqn:Eln; [|discriminate].
  intros Hv. apply andb_prop in Hv as [_ H2]. apply Nat.leb_le in H2.
  pose proof (max_head_ge b ln (proj1 (list_elem_of_In _ _) (list_elem_of_lookup_2 _ _ _ Eln))).
  apply lookup_lt_Some in Eln.
  apply in_prod; apply (proj2 (in_seq _ _ _)); lia.
Qed.

Lemma grid_NoDup (b : Buffer) : List.NoDup (grid b).
Proof. unfold grid. apply list_prod_NoDup; apply List.seq_NoDup. Qed.

Lemma pick_prob_valid (b : Buffer) (m : nat) (w : nat * nat) :
  window_valid b m w = true ->
  (pick_prob b m w == 1 / qnat (length (List.filter (window_valid b m) (grid b))))%Q.
Proof.
  intros Hv. unfold pick_prob. cbv beta zeta.
  rewrite length_filter_eq_NoDup; [reflexivity| |].
  - apply List.NoDup_filter, grid_NoDup.
  - apply filter_In. split; [apply (valid_in_grid b m w Hv)|exact Hv].
Qed.

(** Claim C8: one pick of the sampler selects every currently valid
    [(lane, start)] window with the same probability, [1 / #valid windows],
    also when lanes hold different numbers of records; on such a buffer
    this differs from choosing a lane uniformly and then a start uniformly
    within it. *)
Theorem pick_uniform :
  (forall (b : Buffer) (m : nat) (w1 w2 : nat * nat),
     window_valid b m w1 = true -> window_valid b m w2 = true ->
     (pick_prob b m w1 == pick_prob b m w2)%Q /\
     (pick_prob b m w1 == 1 / qnat (length (List.filter (window_valid b m) (grid b))))%Q) /\
  window_valid Examples.uneven_buffer 1 (0, 0) = true /\
  window_valid Examples.uneven_buffer 1 (1, 0) = true /\
  Qeq (pick_prob Examples.uneven_buffer 1 (0, 0)) (pick_prob Examples.uneven_buffer 1 (1, 0)) /\
  ~ Qeq (lane_then_start_prob Examples.uneven_buffer 1 (0, 0))
        (lane_then_start_prob Examples.uneven_buffer 1 (1, 0)).
Proof.
  assert (Hgen : forall (b : Buffer) (m : nat) (w1 w2 : nat * nat),
     window_valid b m w1 = true -> window_valid b m w2 = true ->
     (pick_prob b m w1 == pick_prob b m w2)%Q /\
     (pick_prob b m w1 == 1 / qnat (length (List.filter (window_valid b m) (grid b))))%Q).
  { intros b m w1 w2 H1 H2. split.
    - rewrite (pick_prob_valid b m w1 H1), (pick_prob_valid b m w2 H2). reflexivity.
    - apply pick_prob_valid, H1. }
  assert (V1 : window_valid Examples.uneven_buffer 1 (0, 0) = true) by reflexivity.
  assert (V2 : window_valid Examples.uneven_buffer 1 (1, 0) = true) by reflexivity.
  split; [exact Hgen|]. split; [exact V1|]. split; [exact V2|]. split.
  - exact (proj1 (Hgen _ 1 _ _ V1 V2)).
  - vm_compute. discriminate.
Qed.

Lemma pick_uniform_witness :
  window_valid Examples.uneven_buffer 1 (1, 1) = true /\
  Qeq (pick_prob Examples.uneven_buffer 1 (1, 1)) (1 / qnat 3).
Proof.
  assert (V : window_valid Examples.uneven_buffer 1 (1, 1) = true) by reflexivity.
  split; [exact V|].
  exact (proj2 (proj1 pick_uniform _ 1 _ _ V V)).
Defined.

End ReplayBufferProofs.

(* ===================================================================== *)
(** * Proofs about the notebook's [PyEnvironment] class                  *)
(* ===================================================================== *)

Module NotebookPyEnvProofs.
Import NotebookPyEnv.

Section Proofs.
Variables (S A TS : Type).
Variable _reset : S -> S * TS.
Variable _step : A -> S -> S * TS.

Lemma run_steps_from_val (actions : list A) (o : PyEnv S TS) (ts0 : TS) :
  _current_time_step o = Val ts0 ->
  exists o' tss,
    run_steps _reset _step actions o = (o', inr tss) /\
    length tss = length actions /\
    inner o' = fold_left (fun s a => fst (_step a s)) actions (inner o) /\
    current_time_step o' = inr (last (ts0 :: tss)).
Proof.
  revert o ts0. induction actions as [|a actions IH]; intros o ts0 Hv.
  - exists o, []. simpl. split; [reflexivity|]. split; [reflexivity|].
    split; [reflexivity|]. unfold current_time_step. rewrite Hv. reflexivity.
  - simpl. unfold step at 1. rewrite Hv.
    destruct (_step a (inner o)) as [s1 ts1] eqn:E1.
    destruct (IH (mkPyEnv s1 (Val ts1)) ts1 eq_refl)
      as [o' [tss [Hr [Hl [Hi Hc]]]]].
    rewrite Hr. exists o', (ts1 :: tss).
    split; [reflexivity|]. split; [simpl; congruence|].
    split; [rewrite Hi; reflexivity|].
    rewrite Hc. reflexivity.
Qed.

(** After [reset], whatever the attribute held before, every [step] calls
    the subclass's [_step] with its action, in order, and never resets
    again (whatever the time steps returned, a last one included); the
    steps raise nothing, and [current_time_step()] returns the time step
    returned by the last call. *)
Theorem steps_after_reset (o : PyEnv S TS) (actions : list A) :
  let '(o1, ts0) := reset _reset o in
  exists o' tss,
    run_steps _reset _step actions o1 = (o', inr tss) /\
    length tss = length actions /\
    inner o' = fold_left (fun s a => fst (_step a s)) actions (fst (_reset (inner o))) /\
    current_time_step o' = inr (last (ts0 :: tss)).
Proof.
  unfold reset. destruct (_reset (inner o)) as [s0 ts0] eqn:E0.
  destruct (run_steps_from_val actions (mkPyEnv s0 (Val ts0)) ts0 eq_refl)
    as [o' [tss H]].
  exists o', tss. exact H.
Qed.
End Proofs.

End NotebookPyEnvProofs.

(* ===================================================================== *)
(** * Proofs about [collect_step] and [collect_data]                      *)
(* ===================================================================== *)

Module CollectProofs.
Import ReplayBuffer ReplayBufferProofs Collect.

Section Proofs.
Variables (EnvState TS PolicyStep Action PolicyRng : Type).
Variable current_time_step : EnvState -> TS.
Variable env_step : Action -> EnvState -> EnvState * TS.
Variable policy_action : PolicyRng -> TS -> PolicyStep * PolicyRng.
Variable step_action : PolicyStep -> Action.
Variable from_transition : TS -> PolicyStep -> TS -> list Record.


Definition traj_of_transition (tr : TS * PolicyStep * TS) : list Record :=
  let '(t, p, t') := tr in from_transition t p t'.

Hypothesis env_step_current :
  forall a e, current_time_step (fst (env_step a e)) = snd (env_step a e).

Lemma collect_data_gen (ds : list TensorSpec) (B : nat)
    (Hvalid : forall t p t', valid_batch ds B (from_transition t p t'))
    (n : nat) (w : World EnvState PolicyRng) :
  data_spec (buffer w) = ds -> batch_size (buffer w) = B ->
  exists trs w',
    length trs = n /\
    chained (current_time_step (env w)) trs (current_time_step (env w')) /\
    collect_data current_time_step env_step policy_action step_action
      from_transition n w = (w', Ok tt) /\
    buffer w' = fst (run_adds (buffer w) (map traj_of_transition trs)).
Proof.
  revert w. induction n as [|n IH]; intros w Hds HB.
  - exists [], w. simpl. auto.
  - cbn [Collect.collect_data]. unfold Collect.collect_step.
    destruct (policy_action (prng w) (current_time_step (env w))) as [p r1] eqn:Ep.
    destruct (env_step (step_action p) (env w)) as [e1 t1] eqn:Ee.
    destruct (Hvalid (current_time_step (env w)) p t1) as [Hn Hc].
    assert (Hc' : forallb (conforms (data_spec (buffer w)))
                    (from_transition (current_time_step (env w)) p t1) = true).
    { apply forallb_forall. intros x Hx. rewrite Hds.
      rewrite List.Forall_forall in Hc. apply Hc, Hx. }
    rewrite (add_batch_ok _ _ Hc' ltac:(rewrite HB; exact Hn)).
    set (b1 := with_lanes (buffer w) _).
    destruct (IH (mkWorld e1 r1 b1) Hds HB) as [trs [w' [Hl [Hch [Hr Hb]]]]].
    exists ((current_time_step (env w), p, t1) :: trs), w'.
    split; [simpl; congruence|].
    split.
    + simpl. split; [reflexivity|].
      assert (Ht1 : current_time_step e1 = t1).
      { pose proof (env_step_current (step_action p) (env w)) as Hcur.
        rewrite Ee in Hcur. exact Hcur. }
      rewrite <- Ht1. exact Hch.
    + split; [exact Hr|]. rewrite Hb. simpl.
      rewrite (add_batch_ok _ _ Hc' ltac:(rewrite HB; exact Hn)).
      fold b1. destruct (run_adds b1 _). reflexivity.
Qed.

(** When every trajectory [from_transition] builds is a batch the buffer
    accepts, [collect_data n] succeeds and adds, in order, the
    trajectories of [n] transitions that follow each other (each starts at
    the time step the previous one reached, the first at the environment's
    current time step, the last at its final one): the buffer is then the
    one [add_batch] gives on those batches, and each lane's records are its
    records before followed by that lane's record of each trajectory. *)
Theorem collect_data_adds_transitions (n : nat) (w : World EnvState PolicyRng)
    (Hvalid : forall t p t',
       valid_batch (data_spec (buffer w)) (batch_size (buffer w)) (from_transition t p t')) :
  exists trs w',
    length trs = n /\
    chained (current_time_step (env w)) trs (current_time_step (env w')) /\
    collect_data current_time_step env_step policy_action step_action
      from_transition n w = (w', Ok tt) /\
    buffer w' = fst (run_adds (buffer w) (map traj_of_transition trs)) /\
    (forall H, buf_hist (buffer w) H ->
       buf_hist (buffer w') (fun j => H j ++ lane_history j (map traj_of_transition trs))).
Proof.
  destruct (collect_data_gen _ _ Hvalid n w eq_refl eq_refl)
    as [trs [w' [Hl [Hch [Hr Hb]]]]].
  exists trs, w'. do 3 (split; [assumption|]). split; [exact Hb|].
  intros H Hh. rewrite Hb.
  assert (Hv : Forall (valid_batch (data_spec (buffer w)) (batch_size (buffer w)))
                 (map traj_of_transition trs)).
  { apply List.Forall_forall. intros x Hx. apply in_map_iff in Hx as [[[t p] t'] [<- _]].
    apply Hvalid. }
  pose proof (run_adds_hist (buffer w) H _ Hh Hv) as Hra.
  destruct (run_adds (buffer w) _) as [b' rs]. simpl. tauto.
Qed.
End Proofs.

Lemma collect_data_adds_transitions_witness :
  (forall (a : unit) (e : nat),
     (fun n : nat => n) (fst (Examples.counter_env_step a e)) =
     snd (Examples.counter_env_step a e)) /\
  (forall t p t',
     valid_batch (data_spec (buffer Examples.start_world))
       (batch_size (buffer Examples.start_world)) (Examples.traj_of t p t')) /\
  exists trs w',
    length trs = 3%nat /\
    chained ((fun n : nat => n) (env Examples.start_world)) trs
      ((fun n : nat => n) (env w')) /\
    collect_data (fun n : nat => n) Examples.counter_env_step Examples.unit_policy
      (fun p : unit => p) Examples.traj_of 3 Examples.start_world = (w', Ok tt) /\
    buffer w' = fst (run_adds (buffer Examples.start_world)
                       (map (traj_of_transition nat unit Examples.traj_of) trs)) /\
    (forall H, buf_hist (buffer Examples.start_world) H ->
       buf_hist (buffer w')
         (fun j => H j ++ lane_history j
                     (map (traj_of_transition nat unit Examples.traj_of) trs))).
Proof.
  assert (Hc : forall (a : unit) (e : nat),
     (fun n : nat => n) (fst (Examples.counter_env_step a e)) =
     snd (Examples.counter_env_step a e)) by reflexivity.
  assert (Hv : forall t p t',
     valid_batch (data_spec (buffer Examples.start_world))
       (batch_size (buffer Examples.start_world)) (Examples.traj_of t p t')).
  { intros t p t'. split; [reflexivity|].
    constructor; [vm_compute; reflexivity|constructor]. }
  split; [exact Hc|]. split; [exact Hv|].
  exact (collect_data_adds_transitions nat nat unit unit unit (fun n => n)
           Examples.counter_env_step Examples.unit_policy (fun p => p)
           Examples.traj_of Hc 3 Examples.start_world Hv).
Defined.

End CollectProofs.

(* ===================================================================== *)
(** * Proofs about the training loop and its plot                        *)
(* ===================================================================== *)

Module TrainingProofs.
Import Training.

Section Proofs.
Variable V : Type.
Variable evaluate : nat -> V.
Variable eval_interval : nat.
Hypothesis eval_interval_pos : 0 < eval_interval.

Definition multiple (i : nat) : bool := Nat.eqb (i mod eval_interval) 0.

Lemma train_loop_eq (k s : nat) (acc : list V) :
  train_loop evaluate eval_interval k s acc =
  acc ++ map evaluate (List.filter multiple (seq (S s) k)).
Proof.
  revert s acc. induction k as [|k IH]; intros s acc.
  - simpl. rewrite app_nil_r. reflexivity.
  - cbn [train_loop seq]. rewrite IH. unfold np_mod.
    destruct (Nat.eqb_spec eval_interval 0) as [H0|_]; [lia|].
    cbn [List.filter]. unfold multiple at 2.
    destruct (Nat.eqb (S s mod eval_interval) 0); simpl;
      [rewrite <- app_assoc; reflexivity|reflexivity].
Qed.

Lemma range_multiples (N : nat) :
  map (fun i => i * eval_interval) (seq 0 ((N + eval_interval) / eval_interval)) =
  List.filter multiple (seq 0 (S N)).
Proof.
  set (E := eval_interval) in *.
  induction N as [|N IH].
  - simpl. rewrite Nat.div_same by lia. simpl. unfold multiple.
    rewrite Nat.Div0.mod_0_l. reflexivity.
  - rewrite (seq_S (S N)), List.filter_app, <- IH. simpl plus.
    pose proof (Nat.div_mod_eq (N + E) E) as Hdm.
    pose proof (Nat.mod_upper_bound (N + E) E ltac:(lia)) as Hr.
    set (q := (N + E) / E) in *. set (r := (N + E) mod E) in *.
    assert (Hq : 1 <= q) by (destruct q; [lia|lia]).
    cbn [List.filter]. unfold multiple at 1. fold E.
    destruct (Nat.eq_dec (S r) E) as [Hre|Hre].
    + assert (Hd : S (N + E) / E = S q)
        by (symmetry; apply (Nat.div_unique _ _ _ 0); lia).
      assert (Hm : S N mod E = 0)
        by (symmetry; apply (Nat.mod_unique _ _ q 0); lia).
      replace (S N + E) with (S (N + E)) by lia. rewrite Hd, Hm.
      rewrite seq_S, map_app. simpl. f_equal. f_equal. lia.
    + assert (Hd : S (N + E) / E = q)
        by (symmetry; apply (Nat.div_unique _ _ _ (S r)); lia).
      assert (Hm : S N mod E = S r)
        by (symmetry; apply (Nat.mod_unique _ _ (q - 1) (S r)); nia).
      replace (S N + E) with (S (N + E)) by lia. rewrite Hd, Hm.
      simpl. rewrite app_nil_r. reflexivity.
Qed.

(** With a positive [eval_interval], [range(0, num_iterations + 1,
    eval_interval)] succeeds, and [returns] after the training loop holds
    exactly one evaluation per value of it, in order: the one made when the
    train step counter held that value (0 for the evaluation before
    training).  So [plt.plot(iterations, returns)] pairs lists of the same
    length, each return with its own step. *)
Theorem returns_align_with_iterations (num_iterations : nat) :
  exists its,
    iterations eval_interval num_iterations = Some its /\
    training_returns evaluate eval_interval num_iterations = map evaluate its.
Proof.
  unfold iterations, py_range.
  destruct (Nat.eqb_spec eval_interval 0) as [H0|_]; [lia|].
  eexists. split; [reflexivity|].
  replace (num_iterations + 1 - 0 + eval_interval - 1)
    with (num_iterations + eval_interval) by lia.
  rewrite (map_ext (fun i => 0 + i * eval_interval) (fun i => i * eval_interval))
    by reflexivity.
  rewrite range_multiples. unfold training_returns. rewrite train_loop_eq.
  cbn [seq List.filter].
  replace (multiple 0) with true
    by (unfold multiple; rewrite Nat.Div0.mod_0_l; reflexivity).
  reflexivity.
Qed.
End Proofs.

Lemma returns_align_with_iterations_witness :
  0 < 2 /\
  exists its,
    iterations 2 5 = Some its /\
    training_returns (fun s : nat => s) 2 5 = map (fun s : nat => s) its.
Proof.
  split; [lia|]. apply (returns_align_with_iterations nat (fun s => s) 2). lia.
Defined.

End TrainingProofs.
